(** * nf-core-statistics: the metrics aggregation of [scripts/generateMetrics.ts]

    A shallow embedding of the script's metric stores, of the record
    classifier ([getBucketKey], [getSecondsToClose],
    [isPullOrIssueWithinMetricsRange], [isContributorABot]), of the bucket
    aggregator ([addNewContributorToBucket], [getPullMetrics],
    [getIssueMetrics]), of the adopter fetcher ([getAdopterList]) and of
    [main], followed by the properties of the specification.

    Conventions of the embedding.
    - A JavaScript [Set<string>] is the list of its elements in insertion
      order, without repetition ([Array.from] returns exactly that list).
    - A [Record<string, V>] is an association list in insertion order: the
      keys the script uses have the shape [year:week], never an array index,
      so [Object.values] enumerates them in insertion order.
    - The timestamps of the GitHub API have whole-second resolution
      ([YYYY-MM-DDTHH:MM:SSZ]); [created_at] and [closed_at] are seconds
      since the Unix epoch and [DateTime.fromISO] turns them into epoch
      milliseconds. [DateTime.now()] is an epoch-millisecond reading.
    - The system zone is UTC, as on the runner of [.github/workflows/daily.yml];
      luxon's calendar getters and its day differences are taken in UTC. *)

From Stdlib Require Import ZArith QArith Ascii.
From stdpp Require Import base decidable option list sorting strings pretty gmap.

Local Open Scope string_scope.
Local Open Scope list_scope.
Local Open Scope Z_scope.

(** ** The luxon getters the script uses, in UTC *)

Module Luxon.

Definition MS_PER_SECOND : Z := 1000.
Definition MS_PER_DAY : Z := 86400000.

(** [DateTime.fromISO] of an API timestamp. *)
Definition fromISO (epoch_seconds : Z) : Z := epoch_seconds * MS_PER_SECOND.

(** Days since 1970-01-01 of the civil date [year-month-day]
    (proleptic Gregorian calendar), what [Date.UTC] computes. *)
Definition daysFromCivil (year month day : Z) : Z :=
  let y := if month <=? 2 then year - 1 else year in
  let era := y / 400 in
  let yoe := y - era * 400 in
  let mp := if month >? 2 then month - 3 else month + 9 in
  let doy := (153 * mp + 2) / 5 + day - 1 in
  let doe := yoe * 365 + yoe / 4 - yoe / 100 + doy in
  era * 146097 + doe - 719468.

(** The civil date of a day number: [getUTCFullYear], [getUTCMonth] + 1
    and [getUTCDate]. *)
Definition civilFromDays (days : Z) : Z * Z * Z :=
  let z := days + 719468 in
  let era := z / 146097 in
  let doe := z - era * 146097 in
  let yoe := (doe - doe / 1460 + doe / 36524 - doe / 146096) / 365 in
  let doy := doe - (365 * yoe + yoe / 4 - yoe / 100) in
  let mp := (5 * doy + 2) / 153 in
  let d := doy - (153 * mp + 2) / 5 + 1 in
  let m := if mp <? 10 then mp + 3 else mp - 9 in
  (if m <=? 2 then yoe + era * 400 + 1 else yoe + era * 400, m, d).

Definition dayNumber (ts : Z) : Z := ts / MS_PER_DAY.

(** [dateTime.year]: the calendar year. *)
Definition year (ts : Z) : Z := (civilFromDays (dayNumber ts)).1.1.
Definition month (ts : Z) : Z := (civilFromDays (dayNumber ts)).1.2.
Definition day (ts : Z) : Z := (civilFromDays (dayNumber ts)).2.

Definition isLeapYear (y : Z) : bool :=
  (y mod 4 =? 0) && (negb (y mod 100 =? 0) || (y mod 400 =? 0)).

Definition nonLeapLadder : list Z :=
  [0; 31; 59; 90; 120; 151; 181; 212; 243; 273; 304; 334].
Definition leapLadder : list Z :=
  [0; 31; 60; 91; 121; 152; 182; 213; 244; 274; 305; 335].

Definition computeOrdinal (y m d : Z) : Z :=
  d + default 0 ((if isLeapYear y then leapLadder else nonLeapLadder)
                   !! Z.to_nat (m - 1)).

(** ISO weekday, Monday = 1 ... Sunday = 7 (1970-01-01 was a Thursday). *)
Definition dayOfWeek (ts : Z) : Z := (dayNumber ts + 3) mod 7 + 1.

Definition weeksInWeekYear (weekYear : Z) : Z :=
  let p1 := (weekYear + weekYear / 4 - weekYear / 100 + weekYear / 400) mod 7 in
  let last := weekYear - 1 in
  let p2 := (last + last / 4 - last / 100 + last / 400) mod 7 in
  if (p1 =? 4) || (p2 =? 3) then 53 else 52.

(** [gregorianToWeek]: the ISO week-numbering year and the ISO week. *)
Definition gregorianToWeek (ts : Z) : Z * Z :=
  let y := year ts in
  let ordinal := computeOrdinal y (month ts) (day ts) in
  let weekNumber := (ordinal - dayOfWeek ts + 10) / 7 in
  if weekNumber <? 1 then (y - 1, weeksInWeekYear (y - 1))
  else if weekNumber >? weeksInWeekYear y then (y + 1, 1)
  else (y, weekNumber).

(** [dateTime.weekYear] and [dateTime.weekNumber]. *)
Definition weekYear (ts : Z) : Z := (gregorianToWeek ts).1.
Definition weekNumber (ts : Z) : Z := (gregorianToWeek ts).2.

(** [later.diff(earlier, "seconds").seconds] for whole-second instants. *)
Definition diffSeconds (later earlier : Z) : Z :=
  (later - earlier) / MS_PER_SECOND.

(** [later.diff(earlier, "days").days]: in a zone without clock changes
    luxon counts the whole days of 24 hours and adds the rest as a fraction
    of a day; the sum is the elapsed time over 86400000 ms (negative when
    [later] comes first), taken here as an exact quotient. *)
Definition diffDays (later earlier : Z) : Q :=
  Qmake (later - earlier) 86400000.

End Luxon.

(** ** Records of the API *)

Record GithubPullOrIssue := {
  login : option string;        (* [user?.login] *)
  created_at : Z;
  closed_at : option Z;         (* [null] while open *)
  pull_request : bool;          (* ["pull_request" in issue] *)
}.

Definition PAST_DAYS_FOR_METRICS : Z := 30.

(** [x < y] on numbers. *)
Definition Qlt_bool (x y : Q) : bool := negb (Qle_bool y x).

(** [String.prototype.endsWith]. *)
Definition endsWith (s suffix : string) : bool :=
  let n := String.length s in
  let k := String.length suffix in
  bool_decide (k ≤ n)%nat && String.eqb (String.substring (n - k) k s) suffix.

Definition botAccounts : list string := ["snyk-bot"].

Definition isContributorABot (contributor : string) : bool :=
  endsWith contributor "[bot]" || bool_decide (contributor ∈ botAccounts).

(** [isPullOrIssueWithinMetricsRange], with the reading of [DateTime.now()]
    made at the call as an argument. *)
Definition isPullOrIssueWithinMetricsRange (now : Z) (pullOrIssue : GithubPullOrIssue) : bool :=
  Qlt_bool (Luxon.diffDays now (Luxon.fromISO (created_at pullOrIssue)))
           (inject_Z PAST_DAYS_FOR_METRICS).

(** [getBucketKey]: the template literal [`${dateTime.year}:${dateTime.weekNumber}`]. *)
Definition getBucketKey (pullOrIssue : GithubPullOrIssue) : string :=
  let dateTime := Luxon.fromISO (created_at pullOrIssue) in
  pretty (Luxon.year dateTime) +:+ ":" +:+ pretty (Luxon.weekNumber dateTime).

(** [getSecondsToClose]: [undefined] (here [None]) without a [closed_at]. *)
Definition getSecondsToClose (pullOrIssue : GithubPullOrIssue) : option Z :=
  match closed_at pullOrIssue with
  | Some closed =>
      Some (Luxon.diffSeconds (Luxon.fromISO closed)
                              (Luxon.fromISO (created_at pullOrIssue)))
  | None => None
  end.

(** ** JavaScript containers *)

(** [Set<string>]: the elements in insertion order. *)
Module JsSet.

Definition has (x : string) (s : list string) : bool := bool_decide (x ∈ s).

Definition add (x : string) (s : list string) : list string :=
  if has x s then s else s ++ [x].

Definition delete (x : string) (s : list string) : list string :=
  filter (λ y, y ≠ x) s.

(** [new Set(array)] *)
Definition fromArray (array : list string) : list string :=
  foldl (λ s x, add x s) [] array.

Definition size (s : list string) : Z := Z.of_nat (length s).

End JsSet.

(** [Record<string, V>]: the properties in insertion order. *)
Module JsObject.
Section JsObject.
Context {V : Type}.

Fixpoint get (k : string) (o : list (string * V)) : option V :=
  match o with
  | [] => None
  | (k', v) :: o' => if decide (k = k') then Some v else get k o'
  end.

(** [o[k] = v]: an existing property keeps its place, a new one comes last. *)
Fixpoint set (k : string) (v : V) (o : list (string * V)) : list (string * V) :=
  match o with
  | [] => [(k, v)]
  | (k', v') :: o' =>
      if decide (k = k') then (k', v) :: o' else (k', v') :: set k v o'
  end.

(** An in-place update of the value stored under [k] ([o[k]++],
    [o[k].add(x)]). *)
Fixpoint update (f : V → V) (k : string) (o : list (string * V)) : list (string * V) :=
  match o with
  | [] => []
  | (k', v') :: o' =>
      if decide (k = k') then (k', f v') :: o' else (k', v') :: update f k o'
  end.

Definition values (o : list (string * V)) : list V := o.*2.
Definition keys (o : list (string * V)) : list string := o.*1.
End JsObject.
End JsObject.

(** ** The metric stores of [main] *)

Record Stores := {
  namesOfContributors : list string;
  namesOfRecentContributors : list string;
  secondsToClosePulls : list Z;
  secondsToCloseIssues : list Z;
  bucketPullCount : list (string * Z);
  bucketNewContributors : list (string * list string);
}.

Definition initialStores : Stores :=
  {| namesOfContributors := []; namesOfRecentContributors := [];
     secondsToClosePulls := []; secondsToCloseIssues := [];
     bucketPullCount := []; bucketNewContributors := [] |}.

Definition withKnown (f : list string → list string) (st : Stores) : Stores :=
  {| namesOfContributors := f (namesOfContributors st);
     namesOfRecentContributors := namesOfRecentContributors st;
     secondsToClosePulls := secondsToClosePulls st;
     secondsToCloseIssues := secondsToCloseIssues st;
     bucketPullCount := bucketPullCount st;
     bucketNewContributors := bucketNewContributors st |}.

Definition withRecent (f : list string → list string) (st : Stores) : Stores :=
  {| namesOfContributors := namesOfContributors st;
     namesOfRecentContributors := f (namesOfRecentContributors st);
     secondsToClosePulls := secondsToClosePulls st;
     secondsToCloseIssues := secondsToCloseIssues st;
     bucketPullCount := bucketPullCount st;
     bucketNewContributors := bucketNewContributors st |}.

Definition withPullSeconds (f : list Z → list Z) (st : Stores) : Stores :=
  {| namesOfContributors := namesOfContributors st;
     namesOfRecentContributors := namesOfRecentContributors st;
     secondsToClosePulls := f (secondsToClosePulls st);
     secondsToCloseIssues := secondsToCloseIssues st;
     bucketPullCount := bucketPullCount st;
     bucketNewContributors := bucketNewContributors st |}.

Definition withIssueSeconds (f : list Z → list Z) (st : Stores) : Stores :=
  {| namesOfContributors := namesOfContributors st;
     namesOfRecentContributors := namesOfRecentContributors st;
     secondsToClosePulls := secondsToClosePulls st;
     secondsToCloseIssues := f (secondsToCloseIssues st);
     bucketPullCount := bucketPullCount st;
     bucketNewContributors := bucketNewContributors st |}.

Definition withPullCount (f : list (string * Z) → list (string * Z)) (st : Stores) : Stores :=
  {| namesOfContributors := namesOfContributors st;
     namesOfRecentContributors := namesOfRecentContributors st;
     secondsToClosePulls := secondsToClosePulls st;
     secondsToCloseIssues := secondsToCloseIssues st;
     bucketPullCount := f (bucketPullCount st);
     bucketNewContributors := bucketNewContributors st |}.

Definition withBuckets
    (f : list (string * list string) → list (string * list string)) (st : Stores) : Stores :=
  {| namesOfContributors := namesOfContributors st;
     namesOfRecentContributors := namesOfRecentContributors st;
     secondsToClosePulls := secondsToClosePulls st;
     secondsToCloseIssues := secondsToCloseIssues st;
     bucketPullCount := bucketPullCount st;
     bucketNewContributors := f (bucketNewContributors st) |}.

(** ** The bucket aggregator *)

(** [addNewContributorToBucket] on the [bucketNewContributors] store: the
    bucket is created first, then every bucket (the new one included) is
    scanned, and the early [return] leaves the store as it is by then. *)
Definition addNewContributorToBucket (bucketKey contributor : string)
    (buckets : list (string * list string)) : list (string * list string) :=
  let buckets :=
    JsObject.set bucketKey (default [] (JsObject.get bucketKey buckets)) buckets in
  if existsb (JsSet.has contributor) (JsObject.values buckets) then buckets
  else JsObject.update (JsSet.add contributor) bucketKey buckets.

(** Truthiness of a number that may be [undefined]. *)
Definition truthy (n : option Z) : bool :=
  match n with Some v => negb (v =? 0) | None => false end.

(** [getPullMetrics]. The guard [pull.user?.login && !isContributorABot(...)]
    fails without a user, on an empty login (falsy) and on a bot. *)
Definition getPullMetrics (now : Z) (pull : GithubPullOrIssue) (st : Stores) : Stores :=
  let key := getBucketKey pull in
  let secondsToClose := getSecondsToClose pull in
  let isPullInRange := isPullOrIssueWithinMetricsRange now pull in
  let st :=
    withPullCount (λ c, JsObject.set key (default 0 (JsObject.get key c)) c) st in
  let st := withPullCount (JsObject.update Z.succ key) st in
  let st :=
    if isPullInRange && truthy secondsToClose
    then withPullSeconds (λ l, l ++ option_list secondsToClose) st else st in
  match login pull with
  | Some l =>
      if negb (String.eqb l "") && negb (isContributorABot l) then
        let st := withBuckets (addNewContributorToBucket key l) st in
        if isPullInRange then withRecent (JsSet.add l) st
        else withKnown (JsSet.add l) st
      else st
  | None => st
  end.

Definition getIssueMetrics (now : Z) (issue : GithubPullOrIssue) (st : Stores) : Stores :=
  let key := getBucketKey issue in
  let secondsToClose := getSecondsToClose issue in
  let isIssueInRange := isPullOrIssueWithinMetricsRange now issue in
  let st :=
    if isIssueInRange && truthy secondsToClose
    then withIssueSeconds (λ l, l ++ option_list secondsToClose) st else st in
  match login issue with
  | Some l =>
      if negb (String.eqb l "") && negb (isContributorABot l) then
        let st := withBuckets (addNewContributorToBucket key l) st in
        if isIssueInRange then withRecent (JsSet.add l) st
        else withKnown (JsSet.add l) st
      else st
  | None => st
  end.

(** ** The collection loops of [main] *)

(** What the paginated API returned for one repository. Every record comes
    with the reading of [DateTime.now()] made while it is classified. *)
Record RepoData := {
  pullPages : list (list (Z * GithubPullOrIssue));
  issuePages : list (list (Z * GithubPullOrIssue));
}.

(** [if (withSubset) break] at the end of the first page. *)
Definition pagesRead {A} (withSubset : bool) (pages : list (list A)) : list (list A) :=
  if withSubset then take 1 pages else pages.

Definition forEachPull (st : Stores) (page : list (Z * GithubPullOrIssue)) : Stores :=
  foldl (λ st p, getPullMetrics p.1 p.2 st) st page.

Definition forEachIssue (st : Stores) (page : list (Z * GithubPullOrIssue)) : Stores :=
  foldl (λ st p, if pull_request p.2 then st else getIssueMetrics p.1 p.2 st) st page.

Definition forEachRepo (withSubset : bool) (st : Stores) (repo : RepoData) : Stores :=
  let st := foldl forEachPull st (pagesRead withSubset (pullPages repo)) in
  foldl forEachIssue st (pagesRead withSubset (issuePages repo)).

Definition collect (withSubset : bool) (repos : list RepoData) : Stores :=
  foldl (forEachRepo withSubset) initialStores repos.

(** ** The statistics reducer *)

(** [percentile(p, list)] of the [percentile] package: nearest rank on the
    sorted copy, [list[kIndex]] being [undefined] out of range. The ceiling
    is exact for [p = 50], the only percentile the script asks for. *)
Definition percentile (p : Z) (list : list Z) : option Z :=
  let sortedList := merge_sort Z.le list in
  if p =? 0 then sortedList !! 0%nat
  else
    let kIndex := - ((- (Z.of_nat (length list) * p)) / 100) - 1 in
    if kIndex <? 0 then None else sortedList !! Z.to_nat kIndex.

(** A JavaScript number: [NaN] or a value. The quotient of [mean] is kept
    exact. *)
Inductive JsNumber :=
  | NaN
  | Num (q : Q).

(** lodash's [mean]: [length ? baseSum(array) / length : NAN]. *)
Definition mean (array : list Z) : JsNumber :=
  let length := length array in
  if (length =? 0)%nat then NaN
  else Num (Qmake (foldr Z.add 0 array) (Pos.of_nat length)).

(** ** Reconciliation of the contributor sets *)

(** The callback of [namesOfRecentContributors.forEach]. *)
Definition reconcileName (st : Stores) (name : string) : Stores :=
  if JsSet.has name (namesOfContributors st)
  then withRecent (JsSet.delete name) st
  else withKnown (JsSet.add name) st.

(** [Set.prototype.forEach] visits the elements in insertion order; the
    callback deletes at most the element being visited, so the visit is the
    walk over the elements the set had at the start. *)
Definition reconcile (st : Stores) : Stores :=
  foldl reconcileName st (namesOfRecentContributors st).

(** ** The snapshot *)

(** The object literal handed to [JSON.stringify]; a percentile may be
    [undefined] ([None]). *)
Module Snapshot.
Record Metrics := {
  namesOfAdopters : list string;
  namesOfContributors : list string;
  namesOfContributorsNew : list string;
  numberOfPullRequestNew : Z;
  p50NumberOfNewPullsPerWeek : option Z;
  p50NumberOfNewContributorsPerWeek : option Z;
  p50SecondsToClosePulls : option Z;
  p50SecondsToCloseIssues : option Z;
  meanNumberOfNewPullsPerWeek : JsNumber;
  meanNumberOfNewContributorsPerWeek : JsNumber;
  meanSecondsToClosePulls : JsNumber;
  meanSecondsToCloseIssues : JsNumber;
}.
End Snapshot.
Abbreviation Metrics := Snapshot.Metrics.

(** [Object.values(bucketNewContributors).map((c) => c.size)] *)
Definition contributorCounts (st : Stores) : list Z :=
  JsSet.size <$> JsObject.values (bucketNewContributors st).

Definition pullCounts (st : Stores) : list Z :=
  JsObject.values (bucketPullCount st).

(** The tail of [main] between the collection loops and the commit: the
    statistics are taken first, then the contributor sets are reconciled. *)
Definition computeMetrics (adopterList : list string) (st : Stores) : Metrics :=
  let final := reconcile st in
  {| Snapshot.namesOfAdopters := adopterList;
     Snapshot.namesOfContributors := namesOfContributors final;
     Snapshot.namesOfContributorsNew := namesOfRecentContributors final;
     Snapshot.numberOfPullRequestNew := Z.of_nat (length (secondsToClosePulls st));
     Snapshot.p50NumberOfNewPullsPerWeek := percentile 50 (pullCounts st);
     Snapshot.p50NumberOfNewContributorsPerWeek := percentile 50 (contributorCounts st);
     Snapshot.p50SecondsToClosePulls := percentile 50 (secondsToClosePulls st);
     Snapshot.p50SecondsToCloseIssues := percentile 50 (secondsToCloseIssues st);
     Snapshot.meanNumberOfNewPullsPerWeek := mean (pullCounts st);
     Snapshot.meanNumberOfNewContributorsPerWeek := mean (contributorCounts st);
     Snapshot.meanSecondsToClosePulls := mean (secondsToClosePulls st);
     Snapshot.meanSecondsToCloseIssues := mean (secondsToCloseIssues st) |}.

(** The values of the serialised snapshot. *)
Inductive Json :=
  | JNull
  | JNumber (q : Q)
  | JStrings (l : list string).

(** [JSON.stringify] on a property: an [undefined] value drops the
    property, [NaN] is written as [null]. *)
Definition percentileProperty (k : string) (v : option Z) : list (string * Json) :=
  match v with Some n => [(k, JNumber (inject_Z n))] | None => [] end.

Definition meanProperty (k : string) (v : JsNumber) : list (string * Json) :=
  match v with Num q => [(k, JNumber q)] | NaN => [(k, JNull)] end.

Definition stringify (m : Metrics) : list (string * Json) :=
  [("namesOfAdopters", JStrings (Snapshot.namesOfAdopters m));
   ("namesOfContributors", JStrings (Snapshot.namesOfContributors m));
   ("namesOfContributorsNew", JStrings (Snapshot.namesOfContributorsNew m));
   ("numberOfPullRequestNew", JNumber (inject_Z (Snapshot.numberOfPullRequestNew m)))]
  ++ percentileProperty "p50NumberOfNewPullsPerWeek" (Snapshot.p50NumberOfNewPullsPerWeek m)
  ++ percentileProperty "p50NumberOfNewContributorsPerWeek"
       (Snapshot.p50NumberOfNewContributorsPerWeek m)
  ++ percentileProperty "p50SecondsToClosePulls" (Snapshot.p50SecondsToClosePulls m)
  ++ percentileProperty "p50SecondsToCloseIssues" (Snapshot.p50SecondsToCloseIssues m)
  ++ meanProperty "meanNumberOfNewPullsPerWeek" (Snapshot.meanNumberOfNewPullsPerWeek m)
  ++ meanProperty "meanNumberOfNewContributorsPerWeek"
       (Snapshot.meanNumberOfNewContributorsPerWeek m)
  ++ meanProperty "meanSecondsToClosePulls" (Snapshot.meanSecondsToClosePulls m)
  ++ meanProperty "meanSecondsToCloseIssues" (Snapshot.meanSecondsToCloseIssues m).

(** ** The adopter list and the run *)

(** A promise settles one way or the other. *)
Inductive Outcome (A : Type) :=
  | Rejected
  | Resolved (a : A).
Arguments Rejected {A}.
Arguments Resolved {A} a.

(** A paginated listing ([octokit.paginate.iterator]): the way its page
    requests settle, one after the other. Nothing is asked for after a
    rejection, nor after a [break]. *)
Definition Listing (A : Type) : Type := list (Outcome (list A)).

(** [for await (const { data } of iterator) { body(data); if (stop) break; }]:
    a rejected request, or a rejection in the body, rejects the loop. *)
Fixpoint forAwait {A S : Type} (stop : bool) (body : S → list A → Outcome S)
    (st : S) (listing : Listing A) : Outcome S :=
  match listing with
  | [] => Resolved st
  | Rejected :: _ => Rejected
  | Resolved data :: rest =>
      match body st data with
      | Rejected => Rejected
      | Resolved st' => if stop then Resolved st' else forAwait stop body st' rest
      end
  end.

(** The two listings of one repository. Every record comes with the reading
    of [DateTime.now()] made while it is classified. *)
Record RepoListings := {
  pullListing : Listing (Z * GithubPullOrIssue);
  issueListing : Listing (Z * GithubPullOrIssue);
}.

(** The body of [for (const repo of repos)]: the pull requests of the
    repository, then its issues. *)
Definition fetchRepo (withSubset : bool) (st : Stores) (repo : RepoListings)
  : Outcome Stores :=
  match forAwait withSubset (λ st pulls, Resolved (forEachPull st pulls)) st
          (pullListing repo) with
  | Rejected => Rejected
  | Resolved st =>
      forAwait withSubset (λ st issues, Resolved (forEachIssue st issues)) st
        (issueListing repo)
  end.

Fixpoint fetchRepos (withSubset : bool) (st : Stores) (repos : list RepoListings)
  : Outcome Stores :=
  match repos with
  | [] => Resolved st
  | repo :: repos' =>
      match fetchRepo withSubset st repo with
      | Rejected => Rejected
      | Resolved st' => fetchRepos withSubset st' repos'
      end
  end.

(** The block under [if (withMetrics)]: the loop over [iteratorRepos]. *)
Definition fetchMetrics (withSubset : bool) (org : Listing RepoListings)
  : Outcome Stores :=
  forAwait false (fetchRepos withSubset) initialStores org.

(** What the outside world answers during one run. [yamlContributors] stands
    for the body of the [try] block up to the [Set]: [yaml.load] followed by
    [parsedYaml.contributors.map(c => c.full_name)], [None] when either
    throws. *)
Record World := {
  orgListing : Listing RepoListings;      (* [iteratorRepos] and the listings of each repository *)
  adopterResponse : Outcome string;       (* [fetch(ADOPTER_URL)], then [response.text()] *)
  yamlContributors : string → option (list string);
  commitResponse : Outcome unit;          (* [getCurrentMetricFileSha], then [createOrUpdateFileContents] *)
}.

Record Flags := {
  commitChanges : bool;
  withMetrics : bool;
  withAdopterList : bool;
  withSubset : bool;
}.

(** What [getAdopterList] writes to the console. *)
Inductive ConsoleLine :=
  | ConsoleLog (names : list string)
  | ConsoleError (message : string).

(** [getAdopterList]: the two [await]s come before the [try]; the result is
    the console output and the way the promise settles. *)
Definition getAdopterList (w : World) : list ConsoleLine * Outcome (list string) :=
  match adopterResponse w with
  | Rejected => ([], Rejected)
  | Resolved content =>
      match yamlContributors w content with
      | Some names =>
          let adopters := JsSet.fromArray names in
          ([ConsoleLog adopters], Resolved (merge_sort String.le adopters))
      | None => ([ConsoleError "Error parsing YAML:"], Resolved [])
      end
  end.

(** How [main] ends: its promise rejects, or it reaches its last statement
    with the metrics computed and, under [commitChanges], committed. *)
Inductive Run :=
  | Aborted
  | Completed (metrics : Metrics) (committed : bool).

(** The stores as the collection phase of [main] leaves them, when no
    listing rejects. *)
Definition collected (flags : Flags) (w : World) : Outcome Stores :=
  if withMetrics flags then fetchMetrics (withSubset flags) (orgListing w)
  else Resolved initialStores.

(** [main]: no [await] of it stands in a [try], so the first rejection, of
    a listing, of the adopter fetch or of the commit, rejects the run. *)
Definition main (flags : Flags) (w : World) : Run :=
  match collected flags w with
  | Rejected => Aborted
  | Resolved st =>
      match (if withAdopterList flags then (getAdopterList w).2 else Resolved []) with
      | Rejected => Aborted
      | Resolved adopterList =>
          let metrics := computeMetrics adopterList st in
          if commitChanges flags then
            match commitResponse w with
            | Rejected => Aborted
            | Resolved _ => Completed metrics true
            end
          else Completed metrics false
      end
  end.

(** ** The run as a sequence of classified records *)

(** The author a record is tracked under: its login when the guard of
    [getPullMetrics] and [getIssueMetrics] lets it through. *)
Definition trackedAuthor (pullOrIssue : GithubPullOrIssue) : option string :=
  match login pullOrIssue with
  | Some l => if negb (String.eqb l "") && negb (isContributorABot l) then Some l else None
  | None => None
  end.

Inductive Event :=
  | PullSeen (now : Z) (pull : GithubPullOrIssue)
  | IssueSeen (now : Z) (issue : GithubPullOrIssue).

Definition eventItem (ev : Event) : GithubPullOrIssue :=
  match ev with PullSeen _ i | IssueSeen _ i => i end.

Definition eventNow (ev : Event) : Z :=
  match ev with PullSeen now _ | IssueSeen now _ => now end.

Definition eventInRange (ev : Event) : bool :=
  isPullOrIssueWithinMetricsRange (eventNow ev) (eventItem ev).

Definition step (st : Stores) (ev : Event) : Stores :=
  match ev with
  | PullSeen now pull => getPullMetrics now pull st
  | IssueSeen now issue => getIssueMetrics now issue st
  end.

Definition pullEvents (page : list (Z * GithubPullOrIssue)) : list Event :=
  (λ p, PullSeen p.1 p.2) <$> page.

Definition issueEvents (page : list (Z * GithubPullOrIssue)) : list Event :=
  (λ p, IssueSeen p.1 p.2) <$> filter (λ p, pull_request p.2 = false) page.

Definition repoEvents (withSubset : bool) (repo : RepoData) : list Event :=
  concat (pullEvents <$> pagesRead withSubset (pullPages repo))
  ++ concat (issueEvents <$> pagesRead withSubset (issuePages repo)).

(** The records [main] classifies, in the order it classifies them. *)
Definition events (withSubset : bool) (repos : list RepoData) : list Event :=
  concat (repoEvents withSubset <$> repos).

Definition run (evs : list Event) : Stores := foldl step initialStores evs.

(** ** Vocabulary of the statements *)

(** The sample a record adds to its closure store, if any. *)
Definition closureSample (now : Z) (item : GithubPullOrIssue) : option Z :=
  if isPullOrIssueWithinMetricsRange now item && truthy (getSecondsToClose item)
  then getSecondsToClose item else None.

(** The buckets whose new-contributor set holds [author]. *)
Definition holders (author : string) (buckets : list (string * list string))
  : list (string * list string) :=
  filter (λ b, author ∈ b.2) buckets.


(** The authors of the classified records that pass the contributor guard
    and satisfy [P]. *)
Definition authorsWhere (P : Event → bool) (evs : list Event) : gset string :=
  list_to_set (omap (λ ev, if P ev then trackedAuthor (eventItem ev) else None) evs).

(** All non-bot authors seen during the run. *)
Definition authorsSeen : list Event → gset string := authorsWhere (λ _, true).

(** The authors of at least one record created out of the window. *)
Definition authorsOutOfWindow : list Event → gset string :=
  authorsWhere (λ ev, negb (eventInRange ev)).

Definition established (m : Metrics) : gset string :=
  list_to_set (Snapshot.namesOfContributors m).

Definition recent (m : Metrics) : gset string :=
  list_to_set (Snapshot.namesOfContributorsNew m).

(** Every name held by a contributor store. *)
Definition contributorNames (st : Stores) : list string :=
  namesOfContributors st ++ namesOfRecentContributors st
  ++ concat (JsObject.values (bucketNewContributors st)).

(** The sample a classified record adds to [secondsToClosePulls]. *)
Definition pullSample (ev : Event) : option Z :=
  match ev with
  | PullSeen now pull => closureSample now pull
  | IssueSeen _ _ => None
  end.

(** A pull request in the window, with a [closed_at] that differs from its
    [created_at]. *)
Definition countedPull (ev : Event) : bool :=
  match ev with
  | PullSeen now pull =>
      isPullOrIssueWithinMetricsRange now pull
      && match closed_at pull with
         | Some closed => negb (closed =? created_at pull)
         | None => false
         end
  | IssueSeen _ _ => false
  end.

(** ** Sample inputs *)

Definition mkItem (who : option string) (created : Z) (closed : option Z) : GithubPullOrIssue :=
  {| login := who; created_at := created; closed_at := closed; pull_request := false |}.

(** Epoch seconds of the UTC instant [y-mo-d h:mi:s]. *)
Definition utc (y mo d h mi s : Z) : Z :=
  Luxon.daysFromCivil y mo d * 86400 + h * 3600 + mi * 60 + s.

Definition aliceInWeekOne : Stores :=
  withBuckets (λ _, [("2024:1", ["alice"])]) initialStores.

(** One repository with a single pull request, by [alice], created ten days
    before it is classified and closed two days after its creation. *)
Definition oneRecentPull : list RepoData :=
  let created := utc 2024 6 1 12 0 0 in
  [ {| pullPages :=
         [[ (Luxon.fromISO created + 10 * Luxon.MS_PER_DAY,
             mkItem (Some "alice") created (Some (created + 2 * 86400))) ]];
       issuePages := [] |} ].

(** Two closed pull requests, by [alice] and by [bob], created 10 and 40
    days before they are classified, each closed two days after its
    creation. *)
Definition recentAndOldPull : list RepoData :=
  let now := Luxon.fromISO (utc 2024 6 11 12 0 0) in
  let recentDay := utc 2024 6 1 12 0 0 in
  let oldDay := utc 2024 5 2 12 0 0 in
  [ {| pullPages :=
         [[ (now, mkItem (Some "bob") oldDay (Some (oldDay + 2 * 86400)));
            (now, mkItem (Some "alice") recentDay (Some (recentDay + 2 * 86400))) ]];
       issuePages := [] |} ].

Definition withoutAdopterList (flags : Flags) : Flags :=
  {| commitChanges := commitChanges flags; withMetrics := withMetrics flags;
     withAdopterList := false; withSubset := withSubset flags |}.

Definition everyPhase : Flags :=
  {| commitChanges := true; withMetrics := true; withAdopterList := true;
     withSubset := false |}.

(** The listings of repositories all of whose pages arrive, under a single
    page of repositories. *)
Definition listed (repos : list RepoData) : Listing RepoListings :=
  [ Resolved ((λ repo, {| pullListing := Resolved <$> pullPages repo;
                          issueListing := Resolved <$> issuePages repo |})
                <$> repos) ].

(** The fetch of the adopter document fails. *)
Definition offline : World :=
  {| orgListing := listed oneRecentPull; adopterResponse := Rejected;
     yamlContributors := λ _, None; commitResponse := Resolved () |}.

(** The document arrives and is not the expected YAML. *)
Definition malformed : World :=
  {| orgListing := listed oneRecentPull; adopterResponse := Resolved "contributors: [";
     yamlContributors := λ _, None; commitResponse := Resolved () |}.

(** ** Vocabulary of the further properties *)

(** Whether a string has a colon in it. *)
Fixpoint hasColon (s : string) : bool :=
  match s with
  | EmptyString => false
  | String c s' => bool_decide (c = ":"%char) || hasColon s'
  end.

(** The sample a classified record adds to [secondsToCloseIssues]. *)
Definition issueSample (ev : Event) : option Z :=
  match ev with
  | PullSeen _ _ => None
  | IssueSeen now issue => closureSample now issue
  end.

Definition isPullEvent (ev : Event) : bool :=
  match ev with PullSeen _ _ => true | IssueSeen _ _ => false end.

(** The sum of a list of counts. *)
Definition total (counts : list Z) : Z := foldr Z.add 0 counts.

(** A repository whose issue listing has lost the records that carry a
    [pull_request] property. *)
Definition issuesOnly (repo : RepoData) : RepoData :=
  {| pullPages := pullPages repo;
     issuePages := filter (λ p, pull_request p.2 = false) <$> issuePages repo |}.

(** The closure duration a record is sampled with, in plain arithmetic:
    the seconds from creation to closure of a closed record created less
    than 30 days of 86400000 ms before the clock reading, unless they are 0. *)
Definition sampledDuration (now : Z) (item : GithubPullOrIssue) : option Z :=
  match closed_at item with
  | Some closed =>
      if bool_decide (now - 1000 * created_at item < 30 * 86400000
                      ∧ closed ≠ created_at item)
      then Some (closed - created_at item) else None
  | None => None
  end.

Definition pullDuration (ev : Event) : option Z :=
  match ev with
  | PullSeen now pull => sampledDuration now pull
  | IssueSeen _ _ => None
  end.

Definition issueDuration (ev : Event) : option Z :=
  match ev with
  | PullSeen _ _ => None
  | IssueSeen now issue => sampledDuration now issue
  end.

(** Sample runs for the further properties. *)
Definition bobThenAliceTwice : list Event :=
  [ PullSeen (Luxon.fromISO (utc 2024 6 20 0 0 0))
      (mkItem (Some "bob") (utc 2024 6 3 12 0 0) None);
    PullSeen (Luxon.fromISO (utc 2024 6 20 0 0 0))
      (mkItem (Some "alice") (utc 2024 6 10 12 0 0) None);
    PullSeen (Luxon.fromISO (utc 2024 6 20 0 0 0))
      (mkItem (Some "alice") (utc 2024 6 17 12 0 0) None) ].

(** The adopter document arrives and lists three records, one name twice. *)
Definition threeAdopters : World :=
  {| orgListing := []; adopterResponse := Resolved "contributors: ...";
     yamlContributors := λ _, Some ["SciLifeLab"; "QBiC"; "SciLifeLab"];
     commitResponse := Resolved () |}.

(** ** Vocabulary for the listings and the statistics *)

(** The pages of a listing that arrived. *)
Definition pagesOf {A} (listing : Listing A) : list (list A) :=
  omap (λ o, match o with Resolved data => Some data | Rejected => None end) listing.



(** The page requests a loop makes when none of them fails: the first one
    under [withSubset], all of them otherwise. *)
Definition requested {A} (withSubset : bool) (listing : Listing A) : Listing A :=
  if withSubset then take 1 listing else listing.

Definition anyRejected {A} (listing : Listing A) : bool :=
  existsb (λ o, match o with Rejected => true | Resolved _ => false end) listing.

Definition repoFails (withSubset : bool) (repo : RepoListings) : bool :=
  anyRejected (requested withSubset (pullListing repo))
  || anyRejected (requested withSubset (issueListing repo)).

(** Some page of repositories is rejected, or some repository of a page
    that arrived has a rejected page among those asked for. *)
Definition listingFails (withSubset : bool) (org : Listing RepoListings) : bool :=
  anyRejected org || existsb (repoFails withSubset) (concat (pagesOf org)).


(** The four sample collections of the statistics, with the properties of
    the snapshot that report on them. *)
Inductive Collection :=
  | PullClosureSeconds
  | IssueClosureSeconds
  | WeeklyPullCounts
  | WeeklyNewContributorCounts.

Definition samplesOf (c : Collection) (st : Stores) : list Z :=
  match c with
  | PullClosureSeconds => secondsToClosePulls st
  | IssueClosureSeconds => secondsToCloseIssues st
  | WeeklyPullCounts => pullCounts st
  | WeeklyNewContributorCounts => contributorCounts st
  end.

Definition p50Of (c : Collection) (m : Metrics) : option Z :=
  match c with
  | PullClosureSeconds => Snapshot.p50SecondsToClosePulls m
  | IssueClosureSeconds => Snapshot.p50SecondsToCloseIssues m
  | WeeklyPullCounts => Snapshot.p50NumberOfNewPullsPerWeek m
  | WeeklyNewContributorCounts => Snapshot.p50NumberOfNewContributorsPerWeek m
  end.

Definition meanOf (c : Collection) (m : Metrics) : JsNumber :=
  match c with
  | PullClosureSeconds => Snapshot.meanSecondsToClosePulls m
  | IssueClosureSeconds => Snapshot.meanSecondsToCloseIssues m
  | WeeklyPullCounts => Snapshot.meanNumberOfNewPullsPerWeek m
  | WeeklyNewContributorCounts => Snapshot.meanNumberOfNewContributorsPerWeek m
  end.

Definition p50Name (c : Collection) : string :=
  match c with
  | PullClosureSeconds => "p50SecondsToClosePulls"
  | IssueClosureSeconds => "p50SecondsToCloseIssues"
  | WeeklyPullCounts => "p50NumberOfNewPullsPerWeek"
  | WeeklyNewContributorCounts => "p50NumberOfNewContributorsPerWeek"
  end.

Definition meanName (c : Collection) : string :=
  match c with
  | PullClosureSeconds => "meanSecondsToClosePulls"
  | IssueClosureSeconds => "meanSecondsToCloseIssues"
  | WeeklyPullCounts => "meanNumberOfNewPullsPerWeek"
  | WeeklyNewContributorCounts => "meanNumberOfNewContributorsPerWeek"
  end.

(** ** Vocabulary for the order of names *)

(** A list of names cut down to the first occurrence of each. *)
Fixpoint firstOccurrences (names : list string) : list string :=
  match names with
  | [] => []
  | name :: rest => name :: filter (λ other, other ≠ name) (firstOccurrences rest)
  end.

(** The author a record out of the window is tracked under. *)
Definition outOfWindowAuthor (ev : Event) : option string :=
  if eventInRange ev then None else trackedAuthor (eventItem ev).

(** The author a record in the window is tracked under. *)
Definition inWindowAuthor (ev : Event) : option string :=
  if eventInRange ev then trackedAuthor (eventItem ev) else None.

(** A record with the verdict of the window on it. *)
Definition verdict (ev : Event) : GithubPullOrIssue * bool :=
  (eventItem ev, eventInRange ev).


(** Three pull requests, classified on three successive days: [bob]'s was
    created out of the window, [alice]'s two in it. *)
Definition threeDays : list Event :=
  [ PullSeen (Luxon.fromISO (utc 2024 6 20 0 0 0))
      (mkItem (Some "bob") (utc 2024 5 2 12 0 0) None);
    PullSeen (Luxon.fromISO (utc 2024 6 21 0 0 0))
      (mkItem (Some "alice") (utc 2024 6 10 12 0 0) None);
    PullSeen (Luxon.fromISO (utc 2024 6 22 0 0 0))
      (mkItem (Some "alice") (utc 2024 6 17 12 0 0) None) ].

(** The same three, classified in the opposite order on the same days. *)
Definition threeDaysBackwards : list Event :=
  [ PullSeen (Luxon.fromISO (utc 2024 6 20 0 0 0))
      (mkItem (Some "alice") (utc 2024 6 17 12 0 0) None);
    PullSeen (Luxon.fromISO (utc 2024 6 21 0 0 0))
      (mkItem (Some "alice") (utc 2024 6 10 12 0 0) None);
    PullSeen (Luxon.fromISO (utc 2024 6 22 0 0 0))
      (mkItem (Some "bob") (utc 2024 5 2 12 0 0) None) ].

(** A store with a pull request counted and no closure sample. *)
Definition onePullNoSample : Stores :=
  withPullCount (λ _, [("2024:22", 1)]) initialStores.

(** * Properties *)

(** ** The loops, flattened *)

Lemma foldl_concat {A B} (f : A → B → A) (ls : list (list B)) (a : A) :
  foldl f a (concat ls) = foldl (foldl f) a ls.
Proof.
  revert a. induction ls as [|l ls IH]; intros a; simpl; [done|].
  by rewrite foldl_app, IH.
Qed.

Lemma foldl_fmap_with {A B C} (f : A → C → A) (g : A → B → A) (h : B → C) l a :
  (∀ a b, f a (h b) = g a b) →
  foldl f a (h <$> l) = foldl g a l.
Proof.
  intros Hfg. revert a. induction l as [|b l IH]; intros a; simpl; [done|].
  by rewrite Hfg, IH.
Qed.

Lemma forEachPull_events st page :
  forEachPull st page = foldl step st (pullEvents page).
Proof.
  unfold forEachPull, pullEvents. symmetry. by apply foldl_fmap_with.
Qed.

Lemma forEachIssue_events st page :
  forEachIssue st page = foldl step st (issueEvents page).
Proof.
  unfold forEachIssue, issueEvents.
  rewrite (foldl_fmap_with _ (λ st p, getIssueMetrics p.1 p.2 st)) by done.
  revert st. induction page as [|p page IH]; intros st; [done|].
  rewrite filter_cons. simpl. destruct (pull_request p.2) eqn:Hp.
  - rewrite decide_False by done. apply IH.
  - rewrite decide_True by done. simpl. apply IH.
Qed.

Lemma forEachRepo_events withSubset st repo :
  forEachRepo withSubset st repo = foldl step st (repoEvents withSubset repo).
Proof.
  unfold forEachRepo, repoEvents.
  rewrite foldl_app, !foldl_concat.
  rewrite (foldl_fmap_with _ forEachPull pullEvents) by (intros; symmetry; apply forEachPull_events).
  by rewrite (foldl_fmap_with _ forEachIssue issueEvents) by (intros; symmetry; apply forEachIssue_events).
Qed.

(** [collect] is the fold of [step] over the classified records. *)
Lemma collect_run withSubset repos :
  collect withSubset repos = run (events withSubset repos).
Proof.
  unfold collect, run, events. rewrite foldl_concat.
  symmetry. apply foldl_fmap_with. intros. symmetry. apply forEachRepo_events.
Qed.

(** ** The classifier *)

Lemma diffSeconds_fromISO (closed created : Z) :
  Luxon.diffSeconds (Luxon.fromISO closed) (Luxon.fromISO created) = closed - created.
Proof.
  unfold Luxon.diffSeconds, Luxon.fromISO, Luxon.MS_PER_SECOND.
  replace (closed * 1000 - created * 1000) with ((closed - created) * 1000) by lia.
  by rewrite Z.div_mul.
Qed.

Lemma getSecondsToClose_eq (item : GithubPullOrIssue) :
  getSecondsToClose item = (λ closed, closed - created_at item) <$> closed_at item.
Proof.
  unfold getSecondsToClose. destruct (closed_at item); simpl; [|done].
  by rewrite diffSeconds_fromISO.
Qed.

Lemma Qlt_bool_iff (x y : Q) : Qlt_bool x y = true ↔ (x < y)%Q.
Proof.
  unfold Qlt_bool. rewrite negb_true_iff, <- not_true_iff_false, Qle_bool_iff.
  split; [apply Qnot_le_lt | apply Qlt_not_le].
Qed.

Lemma inRange_spec (now : Z) (item : GithubPullOrIssue) :
  isPullOrIssueWithinMetricsRange now item = true
  ↔ now - 1000 * created_at item < 30 * 86400000.
Proof.
  unfold isPullOrIssueWithinMetricsRange. rewrite Qlt_bool_iff.
  unfold Qlt, Luxon.diffDays, Luxon.fromISO, PAST_DAYS_FOR_METRICS,
    Luxon.MS_PER_SECOND. simpl. lia.
Qed.

(** C6. A record is in the window exactly when fewer than 30 days (of
    86400000 ms) lie between its creation and the reading of the clock: a
    record created exactly 30 days before [now] is out of the window, one
    created 29 days before [now] is in it. *)
Theorem window_boundary_is_strict (now : Z) (item : GithubPullOrIssue) :
  let created := Luxon.fromISO (created_at item) in
  isPullOrIssueWithinMetricsRange now item
    = bool_decide (now - created < PAST_DAYS_FOR_METRICS * Luxon.MS_PER_DAY)
  ∧ isPullOrIssueWithinMetricsRange (created + 30 * Luxon.MS_PER_DAY) item = false
  ∧ isPullOrIssueWithinMetricsRange (created + 29 * Luxon.MS_PER_DAY) item = true.
Proof.
  cbv zeta. unfold Luxon.fromISO, PAST_DAYS_FOR_METRICS, Luxon.MS_PER_DAY,
    Luxon.MS_PER_SECOND. split_and!.
  - destruct (isPullOrIssueWithinMetricsRange now item) eqn:Hin; symmetry.
    + apply inRange_spec in Hin. apply bool_decide_eq_true. lia.
    + apply bool_decide_eq_false. intros Hlt.
      apply not_true_iff_false in Hin. apply Hin, inRange_spec. lia.
  - apply not_true_iff_false. rewrite inRange_spec. lia.
  - apply inRange_spec. lia.
Qed.

(** C3. At a record created on Monday 2024-12-30, which lies in ISO week 1
    of the week-numbering year 2025, [getBucketKey] pairs the calendar year
    with the ISO week: the key is [2024:1], the key of the records created in
    the first week of January 2024. *)
Theorem bucket_key_takes_calendar_year :
  let item := mkItem (Some "alice") (utc 2024 12 30 12 0 0) None in
  let dateTime := Luxon.fromISO (created_at item) in
  (Luxon.year dateTime, Luxon.month dateTime, Luxon.day dateTime) = (2024, 12, 30)
  ∧ (Luxon.weekYear dateTime, Luxon.weekNumber dateTime) = (2025, 1)
  ∧ getBucketKey item = "2024:1"
  ∧ getBucketKey (mkItem (Some "alice") (utc 2024 1 1 12 0 0) None) = "2024:1".
Proof. vm_compute. done. Qed.

(** The key is the ISO pair whenever the two years agree. *)
Lemma getBucketKey_iso (item : GithubPullOrIssue) :
  let dateTime := Luxon.fromISO (created_at item) in
  Luxon.weekYear dateTime = Luxon.year dateTime →
  getBucketKey item
    = pretty (Luxon.weekYear dateTime) +:+ ":" +:+ pretty (Luxon.weekNumber dateTime).
Proof. intros dateTime H. unfold getBucketKey. fold dateTime. by rewrite H. Qed.

(** ** Closure samples *)

Ltac classify_cases now item :=
  destruct (login item) as [?l|];
    [destruct (negb (String.eqb l "") && negb (isContributorABot l))|];
    destruct (isPullOrIssueWithinMetricsRange now item);
    destruct (truthy (getSecondsToClose item)); simpl.

Lemma getPullMetrics_seconds now pull st :
  secondsToClosePulls (getPullMetrics now pull st)
    = secondsToClosePulls st ++ option_list (closureSample now pull)
  ∧ secondsToCloseIssues (getPullMetrics now pull st) = secondsToCloseIssues st.
Proof.
  unfold getPullMetrics, closureSample.
  classify_cases now pull; by rewrite ?app_nil_r.
Qed.

Lemma getIssueMetrics_seconds now issue st :
  secondsToCloseIssues (getIssueMetrics now issue st)
    = secondsToCloseIssues st ++ option_list (closureSample now issue)
  ∧ secondsToClosePulls (getIssueMetrics now issue st) = secondsToClosePulls st.
Proof.
  unfold getIssueMetrics, closureSample.
  classify_cases now issue; by rewrite ?app_nil_r.
Qed.

(** A record without [closed_at] has no closure duration and adds no sample. *)
Lemma open_item_no_sample now item :
  closed_at item = None →
  getSecondsToClose item = None ∧ closureSample now item = None.
Proof.
  intros H. unfold closureSample, getSecondsToClose. rewrite H. simpl.
  by rewrite andb_false_r.
Qed.

(** Out of the window the duration is computed and not recorded. *)
Lemma out_of_window_no_sample now item :
  isPullOrIssueWithinMetricsRange now item = false →
  getSecondsToClose item = (λ closed, closed - created_at item) <$> closed_at item
  ∧ closureSample now item = None.
Proof.
  intros H. split; [apply getSecondsToClose_eq|].
  unfold closureSample. by rewrite H.
Qed.

(** In the window a closed record adds its duration unless the duration is 0. *)
Lemma closed_in_window_sample now item closed :
  closed_at item = Some closed →
  isPullOrIssueWithinMetricsRange now item = true →
  closureSample now item
    = if decide (closed = created_at item) then None else Some (closed - created_at item).
Proof.
  intros Hc Hin. unfold closureSample. rewrite Hin, getSecondsToClose_eq, Hc. simpl.
  destruct (decide (closed = created_at item)) as [->|Hne].
  - by rewrite Z.sub_diag.
  - destruct (Z.eqb_spec (closed - created_at item) 0); [lia | done].
Qed.

(** C2. A pull request (or an issue) closed in the second it was created,
    classified one day later: it has a [closed_at], it is in the window, its
    closure duration is 0 seconds, and it adds no sample to either store. *)
Theorem zero_second_closure_not_sampled :
  let created := utc 2024 6 1 12 0 0 in
  let item := mkItem (Some "alice") created (Some created) in
  let now := Luxon.fromISO created + Luxon.MS_PER_DAY in
  closed_at item = Some created
  ∧ isPullOrIssueWithinMetricsRange now item = true
  ∧ getSecondsToClose item = Some 0
  ∧ secondsToClosePulls (getPullMetrics now item initialStores) = []
  ∧ secondsToCloseIssues (getIssueMetrics now item initialStores) = [].
Proof. vm_compute. done. Qed.

(** ** Sets and objects *)

Lemma has_true x s : JsSet.has x s = true ↔ x ∈ s.
Proof. unfold JsSet.has. apply bool_decide_eq_true. Qed.

Lemma has_false x s : JsSet.has x s = false ↔ x ∉ s.
Proof. unfold JsSet.has. apply bool_decide_eq_false. Qed.

Lemma elem_of_add y x s : y ∈ JsSet.add x s ↔ y = x ∨ y ∈ s.
Proof.
  unfold JsSet.add. destruct (JsSet.has x s) eqn:H.
  - apply has_true in H. split; [by right | by intros [->|?]].
  - rewrite elem_of_app, list_elem_of_singleton. tauto.
Qed.

Lemma elem_of_delete y x s : y ∈ JsSet.delete x s ↔ y ≠ x ∧ y ∈ s.
Proof. unfold JsSet.delete. by rewrite list_elem_of_filter. Qed.

Lemma NoDup_add x s : NoDup s → NoDup (JsSet.add x s).
Proof.
  intros Hs. unfold JsSet.add. destruct (JsSet.has x s) eqn:H; [done|].
  apply has_false in H. apply NoDup_app. split_and!; [done| |apply NoDup_singleton].
  intros y Hy Hy'. apply list_elem_of_singleton in Hy'. by subst.
Qed.

Lemma get_None {V} k (o : list (string * V)) :
  JsObject.get k o = None ↔ k ∉ JsObject.keys o.
Proof.
  unfold JsObject.keys. induction o as [|[k' v] o IH]; simpl.
  - split; [intros _; apply not_elem_of_nil | done].
  - rewrite not_elem_of_cons. destruct (decide (k = k')) as [->|Hne].
    + split; [done | by intros [? _]].
    + rewrite IH. tauto.
Qed.

(** Writing a property back to itself changes nothing; a new property is
    appended. *)
Lemma set_get_default {V} k (d : V) (o : list (string * V)) :
  JsObject.set k (default d (JsObject.get k o)) o
    = match JsObject.get k o with Some _ => o | None => o ++ [(k, d)] end.
Proof.
  induction o as [|[k' v] o IH]; simpl; [done|].
  destruct (decide (k = k')); simpl; [done|].
  rewrite IH. by destruct (JsObject.get k o).
Qed.

Lemma keys_update {V} (f : V → V) k (o : list (string * V)) :
  JsObject.keys (JsObject.update f k o) = JsObject.keys o.
Proof.
  unfold JsObject.keys. induction o as [|[k' v] o IH]; simpl; [done|].
  destruct (decide (k = k')); simpl; [done|]. f_equal. apply IH.
Qed.

(** ** First-seen attribution *)

Lemma holders_app author b1 b2 :
  holders author (b1 ++ b2) = holders author b1 ++ holders author b2.
Proof. apply filter_app. Qed.

Lemma holders_nil_iff author buckets :
  existsb (JsSet.has author) (JsObject.values buckets) = false
  ↔ holders author buckets = [].
Proof.
  unfold holders, JsObject.values. induction buckets as [|[k s] bs IH]; simpl; [done|].
  rewrite filter_cons. simpl. destruct (JsSet.has author s) eqn:H; simpl.
  - apply has_true in H. rewrite decide_True by done. done.
  - apply has_false in H. by rewrite decide_False.
Qed.

Lemma holders_update_le author f k buckets :
  (length (holders author (JsObject.update f k buckets))
    ≤ S (length (holders author buckets)))%nat.
Proof.
  unfold holders. induction buckets as [|[k' s] bs IH]; simpl; [lia|].
  destruct (decide (k = k')).
  - rewrite !filter_cons. simpl. repeat case_decide; simpl; lia.
  - rewrite !filter_cons. simpl. case_decide; simpl; lia.
Qed.

Lemma holders_update_other author c k buckets :
  author ≠ c →
  length (holders author (JsObject.update (JsSet.add c) k buckets))
    = length (holders author buckets).
Proof.
  intros Hne. unfold holders. induction buckets as [|[k' s] bs IH]; simpl; [done|].
  destruct (decide (k = k')).
  - rewrite !filter_cons. simpl.
    destruct (decide (author ∈ JsSet.add c s)) as [Hin|Hin];
      rewrite elem_of_add in Hin.
    + rewrite decide_True by (by destruct Hin). done.
    + rewrite decide_False by tauto. done.
  - rewrite !filter_cons. simpl. case_decide; simpl; lia.
Qed.

Lemma holders_empty_bucket author key : holders author [(key, [])] = [].
Proof.
  unfold holders. rewrite filter_cons. simpl.
  destruct (decide (author ∈ [])) as [H|_]; [|done]. by apply elem_of_nil in H.
Qed.

(** What one call does to the store. *)
Lemma addNewContributorToBucket_eq key author buckets :
  let created :=
    match JsObject.get key buckets with
    | Some _ => buckets
    | None => buckets ++ [(key, [])]
    end in
  addNewContributorToBucket key author buckets
    = if existsb (JsSet.has author) (JsObject.values buckets) then created
      else JsObject.update (JsSet.add author) key created.
Proof.
  unfold addNewContributorToBucket. rewrite set_get_default.
  destruct (JsObject.get key buckets); [done|].
  unfold JsObject.values. rewrite fmap_app, existsb_app. simpl.
  by rewrite orb_false_r.
Qed.

Lemma addNewContributorToBucket_holders key c author buckets :
  (length (holders author buckets) ≤ 1)%nat →
  (length (holders author (addNewContributorToBucket key c buckets)) ≤ 1)%nat.
Proof.
  intros Hle. rewrite addNewContributorToBucket_eq. cbv zeta.
  assert (Hcreated : ∀ a, holders a
            match JsObject.get key buckets with
            | Some _ => buckets
            | None => buckets ++ [(key, [])]
            end = holders a buckets).
  { intros a. destruct (JsObject.get key buckets); [done|].
    rewrite holders_app, holders_empty_bucket. apply app_nil_r. }
  destruct (existsb (JsSet.has c) (JsObject.values buckets)) eqn:Hex.
  - by rewrite Hcreated.
  - destruct (decide (author = c)) as [->|Hne].
    + apply holders_nil_iff in Hex.
      etrans; [apply holders_update_le|]. by rewrite Hcreated, Hex.
    + by rewrite holders_update_other, Hcreated.
Qed.

Lemma addNewContributorToBucket_keys key c buckets :
  NoDup (JsObject.keys buckets) →
  NoDup (JsObject.keys (addNewContributorToBucket key c buckets)).
Proof.
  intros Hnd. rewrite addNewContributorToBucket_eq. cbv zeta.
  assert (NoDup (JsObject.keys match JsObject.get key buckets with
            | Some _ => buckets
            | None => buckets ++ [(key, [])]
            end)).
  { destruct (JsObject.get key buckets) eqn:Hg; [done|].
    apply get_None in Hg. unfold JsObject.keys in *. rewrite fmap_app. simpl.
    apply NoDup_app. split_and!; [done| |apply NoDup_singleton].
    intros y Hy Hy'. apply list_elem_of_singleton in Hy'. by subst. }
  destruct (existsb _ _); [done|]. by rewrite keys_update.
Qed.


(** C9. A call with a key the store does not have yet, for an author some
    bucket already holds, appends the key with an empty set and inserts
    nobody; the weekly new-contributor counts gain a 0, and it is from these
    counts that the p50 and the mean of the snapshot are taken. *)
Theorem empty_bucket_counts_as_zero (key author : string) (adopters : list string)
    (st : Stores) :
  JsObject.get key (bucketNewContributors st) = None →
  existsb (JsSet.has author) (JsObject.values (bucketNewContributors st)) = true →
  let st' := withBuckets (addNewContributorToBucket key author) st in
  bucketNewContributors st' = bucketNewContributors st ++ [(key, [])]
  ∧ contributorCounts st' = contributorCounts st ++ [0]
  ∧ Snapshot.p50NumberOfNewContributorsPerWeek (computeMetrics adopters st')
      = percentile 50 (contributorCounts st ++ [0])
  ∧ Snapshot.meanNumberOfNewContributorsPerWeek (computeMetrics adopters st')
      = mean (contributorCounts st ++ [0]).
Proof.
  intros Hget Hex st'.
  assert (Hb : bucketNewContributors st' = bucketNewContributors st ++ [(key, [])]).
  { unfold st'. simpl. rewrite addNewContributorToBucket_eq. cbv zeta.
    by rewrite Hget, Hex. }
  assert (Hc : contributorCounts st' = contributorCounts st ++ [0]).
  { unfold contributorCounts, JsObject.values. rewrite Hb. by rewrite !fmap_app. }
  split_and!; [done | done | simpl; by rewrite Hc | simpl; by rewrite Hc].
Qed.

Lemma empty_bucket_counts_as_zero_witness :
  let st' := withBuckets (addNewContributorToBucket "2024:2" "alice") aliceInWeekOne in
  bucketNewContributors st' = [("2024:1", ["alice"]); ("2024:2", [])]
  ∧ contributorCounts st' = [1; 0]
  ∧ Snapshot.p50NumberOfNewContributorsPerWeek (computeMetrics [] st') = Some 0
  ∧ Snapshot.meanNumberOfNewContributorsPerWeek (computeMetrics [] st') = Num (1 # 2).
Proof.
  exact (empty_bucket_counts_as_zero "2024:2" "alice" [] aliceInWeekOne
           eq_refl eq_refl).
Defined.

(** ** Contributor tracking during the run *)

Lemma trackedAuthor_Some item l :
  trackedAuthor item = Some l
  ↔ login item = Some l ∧ l ≠ "" ∧ isContributorABot l = false.
Proof.
  unfold trackedAuthor. destruct (login item) as [l'|]; [|by split; [|intros [? _]]].
  destruct (String.eqb_spec l' ""), (isContributorABot l') eqn:Hb; simpl;
    split; try done; try (intros [[= ->] [? ?]]; congruence).
  intros [= ->]. done.
Qed.

(** The three contributor stores after one record. *)
Lemma step_contributors st ev :
  let st' := step st ev in
  match trackedAuthor (eventItem ev) with
  | Some l =>
      bucketNewContributors st'
        = addNewContributorToBucket (getBucketKey (eventItem ev)) l
            (bucketNewContributors st)
      ∧ namesOfRecentContributors st'
        = (if eventInRange ev then JsSet.add l else id) (namesOfRecentContributors st)
      ∧ namesOfContributors st'
        = (if eventInRange ev then id else JsSet.add l) (namesOfContributors st)
  | None =>
      bucketNewContributors st' = bucketNewContributors st
      ∧ namesOfRecentContributors st' = namesOfRecentContributors st
      ∧ namesOfContributors st' = namesOfContributors st
  end.
Proof.
  destruct ev as [now item|now item]; unfold eventInRange, trackedAuthor; simpl;
    [unfold getPullMetrics | unfold getIssueMetrics];
    classify_cases now item; done.
Qed.

Lemma run_snoc evs ev : run (evs ++ [ev]) = step (run evs) ev.
Proof. unfold run. apply foldl_snoc. Qed.

(** An author is provisionally established by a record out of the window
    and provisionally recent by a record in the window. *)
Lemma run_names (evs : list Event) (x : string) :
  (x ∈ namesOfContributors (run evs)
     ↔ ∃ ev, ev ∈ evs ∧ trackedAuthor (eventItem ev) = Some x ∧ eventInRange ev = false)
  ∧ (x ∈ namesOfRecentContributors (run evs)
     ↔ ∃ ev, ev ∈ evs ∧ trackedAuthor (eventItem ev) = Some x ∧ eventInRange ev = true).
Proof.
  induction evs as [|ev evs [IHk IHr]] using rev_ind.
  - split; (split; [intros H; by apply elem_of_nil in H
                   | intros (ev & H & _); by apply elem_of_nil in H]).
  - rewrite run_snoc. pose proof (step_contributors (run evs) ev) as Hs.
    cbv zeta in Hs.
    assert (Hex : ∀ b, (∃ e, e ∈ evs ++ [ev] ∧ trackedAuthor (eventItem e) = Some x
                          ∧ eventInRange e = b)
              ↔ (∃ e, e ∈ evs ∧ trackedAuthor (eventItem e) = Some x ∧ eventInRange e = b)
                ∨ (trackedAuthor (eventItem ev) = Some x ∧ eventInRange ev = b)).
    { intros b. split.
      - intros (e & He & Ht & Hb). apply elem_of_app in He as [He|He].
        + left. eauto.
        + apply list_elem_of_singleton in He as ->. by right.
      - intros [(e & He & Ht & Hb)|[Ht Hb]].
        + exists e. split; [apply elem_of_app; by left | done].
        + exists ev. split; [apply elem_of_app; right; by apply list_elem_of_singleton | done]. }
    rewrite !Hex, <- IHk, <- IHr.
    destruct (trackedAuthor (eventItem ev)) as [l|] eqn:Hl.
    + destruct Hs as (_ & -> & ->).
      destruct (eventInRange ev); simpl; rewrite ?elem_of_add; split;
        split; try tauto.
      * intros [?|[_ ?]]; [done | done].
      * intros [->|?]; [right; done | by left].
      * intros [?|[[= ->] _]]; [by right | by left].
      * intros [->|?]; [by right | by left].
      * intros [?|[[= ->] _]]; [by right | by left].
      * intros [?|[_ ?]]; [done | done].
    + destruct Hs as (_ & -> & ->). split; split; try tauto.
      * intros [?|[? _]]; [done | done].
      * intros [?|[? _]]; [done | done].
Qed.

Lemma run_NoDup (evs : list Event) :
  NoDup (namesOfContributors (run evs)) ∧ NoDup (namesOfRecentContributors (run evs)).
Proof.
  induction evs as [|ev evs [IHk IHr]] using rev_ind.
  - split; apply NoDup_nil_2.
  - rewrite run_snoc. pose proof (step_contributors (run evs) ev) as Hs.
    cbv zeta in Hs. destruct (trackedAuthor (eventItem ev)).
    + destruct Hs as (_ & -> & ->).
      destruct (eventInRange ev); simpl; split; try done; by apply NoDup_add.
    + by destruct Hs as (_ & -> & ->).
Qed.

(** The buckets of a run: distinct keys, and every author held by at most
    one of them (what [addNewContributorToBucket] keeps, as proved above). *)
Lemma run_first_seen (evs : list Event) (author : string) :
  NoDup (JsObject.keys (bucketNewContributors (run evs)))
  ∧ (length (holders author (bucketNewContributors (run evs))) ≤ 1)%nat.
Proof.
  induction evs as [|ev evs [IHk IHh]] using rev_ind.
  - split; [apply NoDup_nil_2 | simpl; lia].
  - rewrite run_snoc. pose proof (step_contributors (run evs) ev) as Hs.
    cbv zeta in Hs. destruct (trackedAuthor (eventItem ev)).
    + destruct Hs as (-> & _). split.
      * by apply addNewContributorToBucket_keys.
      * by apply addNewContributorToBucket_holders.
    + by destruct Hs as (-> & _).
Qed.

(** ** Reconciliation *)

(** Walking over names [l] that are pairwise distinct: the established set
    gains the names of [l], the recent set loses those of [l] that were
    established before the walk. *)
Lemma foldl_reconcileName (l : list string) (st : Stores) (x : string) :
  NoDup l →
  (x ∈ namesOfContributors (foldl reconcileName st l)
     ↔ x ∈ namesOfContributors st ∨ x ∈ l)
  ∧ (x ∈ namesOfRecentContributors (foldl reconcileName st l)
     ↔ x ∈ namesOfRecentContributors st ∧ ¬ (x ∈ l ∧ x ∈ namesOfContributors st)).
Proof.
  revert st. induction l as [|name l IH]; intros st Hnd; simpl.
  - split; split; try tauto.
    + intros [?|H]; [done | by apply elem_of_nil in H].
    + intros H. split; [done|]. intros [H' _]. by apply elem_of_nil in H'.
  - apply NoDup_cons in Hnd as [Hname Hnd].
    destruct (IH (reconcileName st name) Hnd) as [IHk IHr].
    rewrite IHk, IHr. clear IH IHk IHr. rewrite !elem_of_cons.
    unfold reconcileName. destruct (JsSet.has name (namesOfContributors st)) eqn:Hhas; simpl.
    + apply has_true in Hhas. rewrite elem_of_delete. split; split.
      * intros [?|?]; tauto.
      * intros [?|[->|?]]; tauto.
      * intros [[Hne Hr] Hn]. split; [done|]. intros [[->|Hl] Hk]; tauto.
      * intros [Hr Hn]. split; [split; [|done] |].
        -- intros ->. tauto.
        -- tauto.
    + apply has_false in Hhas. rewrite elem_of_add. split; split.
      * intros [[->|?]|?]; tauto.
      * intros [?|[->|?]]; tauto.
      * intros [Hr Hn]. split; [done|]. intros [[->|Hl] Hk]; [done|].
        apply Hn. tauto.
      * intros [Hr Hn]. split; [done|]. intros [Hl [->|Hk]]; [done|]. tauto.
Qed.

Lemma reconcile_names (st : Stores) (x : string) :
  NoDup (namesOfRecentContributors st) →
  (x ∈ namesOfContributors (reconcile st)
     ↔ x ∈ namesOfContributors st ∨ x ∈ namesOfRecentContributors st)
  ∧ (x ∈ namesOfRecentContributors (reconcile st)
     ↔ x ∈ namesOfRecentContributors st ∧ x ∉ namesOfContributors st).
Proof.
  intros Hnd. unfold reconcile.
  destruct (foldl_reconcileName (namesOfRecentContributors st) st x Hnd) as [Hk Hr].
  rewrite Hk, Hr. split; [done|]. tauto.
Qed.

(** ** The contributor sets of the snapshot *)

Lemma elem_of_authorsWhere P evs x :
  x ∈ authorsWhere P evs
  ↔ ∃ ev, ev ∈ evs ∧ P ev = true ∧ login (eventItem ev) = Some x ∧ x ≠ ""
          ∧ isContributorABot x = false.
Proof.
  unfold authorsWhere. rewrite elem_of_list_to_set, list_elem_of_omap.
  split; intros (ev & Hev & H); exists ev; (split; [done|]).
  - destruct (P ev); [|done]. by apply trackedAuthor_Some in H.
  - destruct H as (-> & H). by apply trackedAuthor_Some.
Qed.

(** C1, as the code has it. After the reconciliation pass
    [namesOfContributors] is the set of all non-bot authors (with a
    non-empty login) seen during the run, [namesOfContributorsNew] is the
    set of those among them with no record out of the window, the recent
    set is included in the established one, and their union is the set of
    all non-bot authors seen. *)
Theorem reconciled_sets (withSubset : bool) (repos : list RepoData)
    (adopters : list string) :
  let evs := events withSubset repos in
  let m := computeMetrics adopters (collect withSubset repos) in
  established m = authorsSeen evs
  ∧ recent m = authorsSeen evs ∖ authorsOutOfWindow evs
  ∧ recent m ⊆ established m
  ∧ established m ∪ recent m = authorsSeen evs.
Proof.
  intros evs m.
  assert (Hk : ∀ x, x ∈ established m ↔ x ∈ authorsSeen evs).
  { intros x. unfold established, m, authorsSeen. simpl.
    rewrite elem_of_list_to_set, collect_run. fold evs.
    destruct (reconcile_names (run evs) x (proj2 (run_NoDup evs))) as [-> _].
    destruct (run_names evs x) as [-> ->].
    unfold authorsWhere. rewrite elem_of_list_to_set, list_elem_of_omap.
    split.
    - intros [(ev & ? & ? & ?)|(ev & ? & ? & ?)]; by exists ev.
    - intros (ev & ? & ?). destruct (eventInRange ev) eqn:Hr; [right|left]; by exists ev. }
  assert (Hr : ∀ x, x ∈ recent m ↔ x ∈ authorsSeen evs ∖ authorsOutOfWindow evs).
  { intros x. unfold recent, m, authorsSeen, authorsOutOfWindow. simpl.
    rewrite elem_of_list_to_set, collect_run. fold evs.
    destruct (reconcile_names (run evs) x (proj2 (run_NoDup evs))) as [_ ->].
    destruct (run_names evs x) as [-> ->].
    rewrite elem_of_difference. unfold authorsWhere.
    rewrite !elem_of_list_to_set, !list_elem_of_omap.
    split.
    - intros [(ev & ? & ? & ?) Hn]. split; [by exists ev|].
      intros (ev' & ? & H'). apply Hn. exists ev'.
      destruct (eventInRange ev'); simpl in H'; [done|]. by split.
    - intros [(ev & ? & ?) Hn]. split.
      + exists ev. split; [done|]. split; [done|].
        destruct (eventInRange ev) eqn:Hin; [done|]. exfalso. apply Hn.
        exists ev. rewrite Hin. by split.
      + intros (ev' & ? & ? & Hout). apply Hn. exists ev'. by rewrite Hout. }
  assert (established m = authorsSeen evs) as Hk' by (apply set_eq; exact Hk).
  assert (recent m = authorsSeen evs ∖ authorsOutOfWindow evs) as Hr'
    by (apply set_eq; exact Hr).
  split_and!; [done | done | |]; rewrite Hk', Hr'.
  - intros x. rewrite elem_of_difference. tauto.
  - apply set_eq. intros x. rewrite elem_of_union, elem_of_difference. tauto.
Qed.

(** C1, as stated, fails on [oneRecentPull]: [alice] has no record out of
    the window, the pass adds her to the established set and leaves her in
    the recent one, so the two sets meet. *)
Lemma reconciled_sets_meet :
  ¬ (established (computeMetrics [] (collect false oneRecentPull))
       ## recent (computeMetrics [] (collect false oneRecentPull))
     ∧ established (computeMetrics [] (collect false oneRecentPull))
         ∪ recent (computeMetrics [] (collect false oneRecentPull))
       = authorsSeen (events false oneRecentPull)).
Proof.
  intros [Hdisjoint _].
  assert (Hk : Snapshot.namesOfContributors
                 (computeMetrics [] (collect false oneRecentPull)) = ["alice"])
    by (vm_compute; reflexivity).
  assert (Hr : Snapshot.namesOfContributorsNew
                 (computeMetrics [] (collect false oneRecentPull)) = ["alice"])
    by (vm_compute; reflexivity).
  apply (Hdisjoint "alice"); unfold established, recent;
    rewrite ?Hk, ?Hr; apply elem_of_list_to_set, list_elem_of_singleton; done.
Qed.

(** ** Bots *)

Lemma elem_of_bucket_names x (buckets : list (string * list string)) :
  x ∈ concat (JsObject.values buckets) ↔ holders x buckets ≠ [].
Proof.
  unfold JsObject.values, holders. induction buckets as [|[k s] bs IH]; simpl.
  - split; [intros H; by apply elem_of_nil in H | done].
  - rewrite elem_of_app, IH, filter_cons. simpl.
    destruct (decide (x ∈ s)); split; try done; tauto.
Qed.

Lemma bucket_names_update x c k (buckets : list (string * list string)) :
  x ∈ concat (JsObject.values (JsObject.update (JsSet.add c) k buckets)) →
  x = c ∨ x ∈ concat (JsObject.values buckets).
Proof.
  unfold JsObject.values. induction buckets as [|[k' s] bs IH]; simpl; [by right|].
  destruct (decide (k = k')); simpl; rewrite !elem_of_app.
  - rewrite elem_of_add. tauto.
  - intros [?|H]; [tauto|]. destruct (IH H); tauto.
Qed.

Lemma bucket_names_add x key c buckets :
  x ∈ concat (JsObject.values (addNewContributorToBucket key c buckets)) →
  x = c ∨ x ∈ concat (JsObject.values buckets).
Proof.
  rewrite addNewContributorToBucket_eq. cbv zeta.
  assert (Hcreated : x ∈ concat (JsObject.values
            match JsObject.get key buckets with
            | Some _ => buckets
            | None => buckets ++ [(key, [])]
            end) → x ∈ concat (JsObject.values buckets)).
  { destruct (JsObject.get key buckets); [done|].
    unfold JsObject.values. rewrite fmap_app, concat_app. simpl.
    by rewrite !app_nil_r. }
  destruct (existsb _ _).
  - intros H. right. by apply Hcreated.
  - intros H. apply bucket_names_update in H as [?|?]; [by left | right; by apply Hcreated].
Qed.

Lemma step_names st ev x :
  x ∈ contributorNames (step st ev) →
  x ∈ contributorNames st ∨ trackedAuthor (eventItem ev) = Some x.
Proof.
  unfold contributorNames. pose proof (step_contributors st ev) as Hs. cbv zeta in Hs.
  destruct (trackedAuthor (eventItem ev)) as [l|].
  - destruct Hs as (-> & -> & ->). rewrite !elem_of_app.
    intros [H|[H|H]].
    + destruct (eventInRange ev); simpl in H; [tauto|].
      apply elem_of_add in H as [->|?]; tauto.
    + destruct (eventInRange ev); simpl in H; [|tauto].
      apply elem_of_add in H as [->|?]; tauto.
    + apply bucket_names_add in H as [->|?]; tauto.
  - destruct Hs as (-> & -> & ->). by left.
Qed.

(** Whoever is in a contributor store passed the guard of some record. *)
Lemma run_contributorNames (evs : list Event) (x : string) :
  x ∈ contributorNames (run evs) →
  ∃ ev, ev ∈ evs ∧ trackedAuthor (eventItem ev) = Some x.
Proof.
  induction evs as [|ev evs IH] using rev_ind.
  - intros H. by apply elem_of_nil in H.
  - rewrite run_snoc. intros H. apply step_names in H as [H|H].
    + destruct (IH H) as (e & ? & ?). exists e. split; [apply elem_of_app; by left | done].
    + exists ev. split; [apply elem_of_app; right; by apply list_elem_of_singleton | done].
Qed.

(** No bot is ever in a contributor store, nor in the contributor lists of
    the snapshot. *)
Lemma bots_never_tracked (withSubset : bool) (repos : list RepoData)
    (adopters : list string) (bot : string) :
  isContributorABot bot = true →
  (bot ∉ contributorNames (collect withSubset repos))
  ∧ (bot ∉ Snapshot.namesOfContributors
             (computeMetrics adopters (collect withSubset repos)))
  ∧ (bot ∉ Snapshot.namesOfContributorsNew
             (computeMetrics adopters (collect withSubset repos))).
Proof.
  intros Hbot. rewrite collect_run.
  assert (Hn : bot ∉ contributorNames (run (events withSubset repos))).
  { intros H. apply run_contributorNames in H as (ev & _ & H).
    apply trackedAuthor_Some in H as (_ & _ & H). congruence. }
  split; [done|]. simpl.
  destruct (reconcile_names (run (events withSubset repos)) bot
              (proj2 (run_NoDup _))) as [-> ->].
  unfold contributorNames in Hn. rewrite !elem_of_app in Hn. tauto.
Qed.

Lemma get_set_eq {V} k (v : V) (o : list (string * V)) :
  JsObject.get k (JsObject.set k v o) = Some v.
Proof.
  induction o as [|[k' v'] o IH]; simpl.
  - by rewrite decide_True.
  - destruct (decide (k = k')) as [->|Hne]; simpl.
    + by rewrite decide_True.
    + by rewrite decide_False.
Qed.

Lemma get_update_eq {V} (f : V → V) k (o : list (string * V)) :
  JsObject.get k (JsObject.update f k o) = f <$> JsObject.get k o.
Proof.
  induction o as [|[k' v'] o IH]; simpl; [done|].
  destruct (decide (k = k')) as [->|Hne]; simpl.
  - by rewrite decide_True.
  - by rewrite decide_False.
Qed.

(** Every pull request, whoever wrote it, adds one to the count of its bucket. *)
Lemma getPullMetrics_count now pull st :
  JsObject.get (getBucketKey pull) (bucketPullCount (getPullMetrics now pull st))
    = Some (default 0 (JsObject.get (getBucketKey pull) (bucketPullCount st)) + 1).
Proof.
  unfold getPullMetrics.
  classify_cases now pull; by rewrite get_update_eq, get_set_eq.
Qed.

(** A pull request written by a bot leaves the contributor stores alone. *)
Lemma bot_pull_untracked now pull bot st :
  login pull = Some bot → isContributorABot bot = true →
  let st' := getPullMetrics now pull st in
  namesOfContributors st' = namesOfContributors st
  ∧ namesOfRecentContributors st' = namesOfRecentContributors st
  ∧ bucketNewContributors st' = bucketNewContributors st.
Proof.
  intros Hl Hbot. pose proof (step_contributors st (PullSeen now pull)) as Hs.
  cbv zeta in Hs. simpl in Hs.
  destruct (trackedAuthor pull) as [l|] eqn:Ht.
  - apply trackedAuthor_Some in Ht as (? & _ & ?). congruence.
  - cbv zeta. tauto.
Qed.

(** C8. A pull request by [dependabot[bot]] closed in the second it was
    created and classified a day later: its bucket counts one pull request
    and no contributor store holds the author, but the closed, in-window
    record adds no closure sample. *)
Theorem bot_pull_zero_second_closure :
  let created := utc 2024 6 1 12 0 0 in
  let pull := mkItem (Some "dependabot[bot]") created (Some created) in
  let now := Luxon.fromISO created + Luxon.MS_PER_DAY in
  let st := getPullMetrics now pull initialStores in
  isContributorABot "dependabot[bot]" = true
  ∧ isContributorABot "snyk-bot" = true
  ∧ closed_at pull = Some created
  ∧ isPullOrIssueWithinMetricsRange now pull = true
  ∧ bucketPullCount st = [("2024:22", 1)]
  ∧ contributorNames st = []
  ∧ secondsToClosePulls st = [].
Proof. vm_compute. done. Qed.

(** ** The count of new pull requests *)

Lemma run_pull_seconds (evs : list Event) :
  secondsToClosePulls (run evs) = omap pullSample evs.
Proof.
  induction evs as [|ev evs IH] using rev_ind; [done|].
  rewrite run_snoc, omap_app. simpl. destruct ev as [now pull|now issue]; simpl.
  - destruct (getPullMetrics_seconds now pull (run evs)) as [-> _]. rewrite IH.
    by destruct (closureSample now pull).
  - destruct (getIssueMetrics_seconds now issue (run evs)) as [_ ->].
    by rewrite IH, app_nil_r.
Qed.

Lemma pullSample_counted (ev : Event) :
  is_Some (pullSample ev) ↔ countedPull ev = true.
Proof.
  destruct ev as [now pull|now issue]; simpl; [|by split; [intros [? ?]|]].
  unfold closureSample. rewrite getSecondsToClose_eq.
  destruct (isPullOrIssueWithinMetricsRange now pull); simpl;
    [|by split; [intros [? ?]|]].
  destruct (closed_at pull) as [closed|]; simpl; [|by split; [intros [? ?]|]].
  destruct (Z.eqb_spec (closed - created_at pull) 0),
           (Z.eqb_spec closed (created_at pull)); simpl; try lia.
  - by split; [intros [? ?]|].
  - by split; [|eexists].
Qed.

Lemma length_omap_filter {A B} (f : A → option B) (g : A → bool) (l : list A) :
  (∀ a, is_Some (f a) ↔ g a = true) →
  length (omap f l) = length (List.filter g l).
Proof.
  intros Hfg. induction l as [|a l IH]; simpl; [done|].
  specialize (Hfg a). destruct (f a) as [b|], (g a); simpl.
  - f_equal. exact IH.
  - assert (false = true) by (apply Hfg; eauto). done.
  - assert (is_Some (@None B)) as [? ?] by (by apply Hfg). done.
  - exact IH.
Qed.

(** C10. [numberOfPullRequestNew] is the length of [secondsToClosePulls]:
    the number of classified pull requests that were in the window, had a
    [closed_at] and a closure duration other than 0. Issues, open pull
    requests and pull requests closed in the second of their creation are
    not counted. *)
Theorem new_pull_requests_counted (withSubset : bool) (repos : list RepoData)
    (adopters : list string) :
  let m := computeMetrics adopters (collect withSubset repos) in
  Snapshot.numberOfPullRequestNew m
    = Z.of_nat (length (secondsToClosePulls (collect withSubset repos)))
  ∧ Snapshot.numberOfPullRequestNew m
    = Z.of_nat (length (List.filter countedPull (events withSubset repos))).
Proof.
  split; [done|]. simpl. f_equal.
  rewrite collect_run, run_pull_seconds.
  apply length_omap_filter, pullSample_counted.
Qed.

(** The scenario of two pull requests: only the recent one is sampled; the
    author of the old one is established, the author of the recent one is
    in both lists. *)
Example two_pull_requests :
  stringify (computeMetrics [] (collect false recentAndOldPull))
  = [ ("namesOfAdopters", JStrings []);
      ("namesOfContributors", JStrings ["bob"; "alice"]);
      ("namesOfContributorsNew", JStrings ["alice"]);
      ("numberOfPullRequestNew", JNumber (1 # 1));
      ("p50NumberOfNewPullsPerWeek", JNumber (1 # 1));
      ("p50NumberOfNewContributorsPerWeek", JNumber (1 # 1));
      ("p50SecondsToClosePulls", JNumber (172800 # 1));
      ("meanNumberOfNewPullsPerWeek", JNumber (2 # 2));
      ("meanNumberOfNewContributorsPerWeek", JNumber (2 # 2));
      ("meanSecondsToClosePulls", JNumber (172800 # 1));
      ("meanSecondsToCloseIssues", JNull) ].
Proof. vm_compute. reflexivity. Qed.

(** ** Statistics of an empty collection *)

(** The snapshot of a run that classified nothing. *)
Example snapshot_of_nothing :
  stringify (computeMetrics [] (collect false []))
  = [ ("namesOfAdopters", JStrings []);
      ("namesOfContributors", JStrings []);
      ("namesOfContributorsNew", JStrings []);
      ("numberOfPullRequestNew", JNumber (0 # 1));
      ("meanNumberOfNewPullsPerWeek", JNull);
      ("meanNumberOfNewContributorsPerWeek", JNull);
      ("meanSecondsToClosePulls", JNull);
      ("meanSecondsToCloseIssues", JNull) ].
Proof. reflexivity. Qed.

(** Of the empty list the percentile is [undefined] and the mean is [NaN]. *)
Lemma empty_collection_statistics (property : string) :
  percentile 50 [] = None
  ∧ percentileProperty property (percentile 50 []) = []
  ∧ mean [] = NaN
  ∧ meanProperty property (mean []) = [(property, JNull)]
  ∧ (∀ n, percentile 50 [] ≠ Some n)
  ∧ (∀ q, mean [] ≠ Num q).
Proof. split_and!; done. Qed.

(** What the snapshot reports on a collection is what the reducer made of
    its samples. *)
Lemma computeMetrics_statistics (c : Collection) (adopters : list string) (st : Stores) :
  p50Of c (computeMetrics adopters st) = percentile 50 (samplesOf c st)
  ∧ meanOf c (computeMetrics adopters st) = mean (samplesOf c st).
Proof. by destruct c. Qed.

(** Reading the serialised snapshot back: a percentile is there when it is
    defined, a mean is always there, as [null] when it is [NaN]. *)
Lemma stringify_get (c : Collection) (m : Metrics) :
  JsObject.get (p50Name c) (stringify m) = (λ n, JNumber (inject_Z n)) <$> p50Of c m
  ∧ JsObject.get (meanName c) (stringify m)
    = Some (match meanOf c m with NaN => JNull | Num q => JNumber q end).
Proof.
  destruct m as [ads known new count p1 p2 p3 p4 m1 m2 m3 m4].
  destruct c, p1, p2, p3, p4, m1, m2, m3, m4; split; reflexivity.
Qed.

(** C5. Whenever one of the four sample collections is empty, the
    snapshot reports no number for it: its 50th percentile is [undefined]
    and the property is left out of the snapshot, its mean is [NaN] and
    the property is written as [null]. Neither is zero, and the run goes
    on to report them: nothing is raised. *)
Theorem empty_collection_reported_absent (c : Collection) (adopters : list string)
    (st : Stores) :
  samplesOf c st = [] →
  let m := computeMetrics adopters st in
  p50Of c m = None
  ∧ meanOf c m = NaN
  ∧ JsObject.get (p50Name c) (stringify m) = None
  ∧ JsObject.get (meanName c) (stringify m) = Some JNull
  ∧ (∀ q, JsObject.get (p50Name c) (stringify m) ≠ Some (JNumber q))
  ∧ (∀ q, JsObject.get (meanName c) (stringify m) ≠ Some (JNumber q)).
Proof.
  intros Hempty m.
  destruct (computeMetrics_statistics c adopters st) as [Hp Hm].
  rewrite Hempty in Hp, Hm. fold m in Hp, Hm.
  destruct (stringify_get c m) as [Hgp Hgm]. rewrite Hp in Hgp. rewrite Hm in Hgm.
  change (mean []) with NaN in *. change (percentile 50 []) with (@None Z) in *.
  rewrite Hgp, Hgm. by split_and!.
Qed.

Lemma empty_collection_reported_absent_witness :
  let m := computeMetrics [] onePullNoSample in
  p50Of PullClosureSeconds m = None
  ∧ meanOf PullClosureSeconds m = NaN
  ∧ JsObject.get "p50SecondsToClosePulls" (stringify m) = None
  ∧ JsObject.get "meanSecondsToClosePulls" (stringify m) = Some JNull
  ∧ (∀ q, JsObject.get "p50SecondsToClosePulls" (stringify m) ≠ Some (JNumber q))
  ∧ (∀ q, JsObject.get "meanSecondsToClosePulls" (stringify m) ≠ Some (JNumber q)).
Proof.
  exact (empty_collection_reported_absent PullClosureSeconds [] onePullNoSample eq_refl).
Defined.

(** Of a collection that is not empty both are numbers. *)
Lemma nonempty_collection_mean (x : Z) (l : list Z) :
  mean (x :: l) = Num (Qmake (foldr Z.add 0 (x :: l)) (Pos.of_nat (S (length l)))).
Proof. done. Qed.

(** ** The adopter list *)

(** C4, as stated, fails when the fetch rejects: the [await] stands before
    the [try], [getAdopterList] rejects without a word on the console, and
    [main] rejects before the metrics are computed or committed. *)
Lemma fetch_failure_is_fatal :
  ¬ ((getAdopterList offline).2 = Resolved []
     ∧ ∃ metrics committed, main everyPhase offline = Completed metrics committed).
Proof. intros [H _]. vm_compute in H. discriminate. Qed.

Lemma fetch_failure_aborts (flags : Flags) (w : World) :
  withAdopterList flags = true → adopterResponse w = Rejected →
  getAdopterList w = ([], Rejected) ∧ main flags w = Aborted.
Proof.
  intros Hf Hr. unfold main, getAdopterList. rewrite Hf, Hr.
  by destruct (collected flags w).
Qed.

(** C4, as the code has it. When the document was fetched and its parsing
    throws, [getAdopterList] reports the error on the console and resolves
    to the empty list; [main] goes on exactly as a run without the adopter
    phase: the metrics are computed from the stores the collection phase
    left, with an empty [namesOfAdopters], and committed when
    [commitChanges] asks for it. (The adopter document is fetched after the
    collection phase: a parsing error is met only by a run whose listings
    all arrived.) *)
Theorem parse_failure_is_not_fatal (flags : Flags) (w : World) (content : string) :
  withAdopterList flags = true →
  adopterResponse w = Resolved content →
  yamlContributors w content = None →
  getAdopterList w = ([ConsoleError "Error parsing YAML:"], Resolved [])
  ∧ main flags w = main (withoutAdopterList flags) w
  ∧ (∀ st, collected flags w = Resolved st →
     commitResponse w = Resolved () →
     ∃ metrics, main flags w = Completed metrics (commitChanges flags)
                ∧ Snapshot.namesOfAdopters metrics = []
                ∧ metrics = computeMetrics [] st).
Proof.
  intros Hf Hr Hy. unfold main, getAdopterList, collected. rewrite Hf, Hr, Hy. simpl.
  split_and!; [done | done |]. intros st -> ->. destruct (commitChanges flags); eauto.
Qed.

Lemma parse_failure_is_not_fatal_witness :
  getAdopterList malformed = ([ConsoleError "Error parsing YAML:"], Resolved [])
  ∧ main everyPhase malformed = main (withoutAdopterList everyPhase) malformed
  ∧ ∃ metrics, main everyPhase malformed = Completed metrics true
               ∧ Snapshot.namesOfAdopters metrics = []
               ∧ metrics = computeMetrics [] (collect false oneRecentPull).
Proof.
  destruct (parse_failure_is_not_fatal everyPhase malformed "contributors: ["
              eq_refl eq_refl eq_refl) as (Hlist & Hrun & Hcommit).
  split_and!; [exact Hlist | exact Hrun |].
  exact (Hcommit (collect false oneRecentPull) eq_refl eq_refl).
Defined.

(** * Further properties of the script *)

(** ** Bot detection *)

Lemma substring_all (s : string) : String.substring 0 (String.length s) s = s.
Proof. induction s as [|c s IH]; simpl; [done|]. by rewrite IH. Qed.

Lemma substring_skip (p s : string) (m : nat) :
  String.substring (String.length p) m (p +:+ s) = String.substring 0 m s.
Proof. induction p as [|c p IH]; simpl; [done|]. apply IH. Qed.

Lemma length_app_string (p s : string) :
  String.length (p +:+ s) = (String.length p + String.length s)%nat.
Proof. induction p as [|c p IH]; simpl; [done|]. by rewrite IH. Qed.

Lemma substring_split (s : string) (n : nat) :
  (n ≤ String.length s)%nat →
  s = String.substring 0 n s +:+ String.substring n (String.length s - n) s.
Proof.
  revert n. induction s as [|c s IH]; intros [|n] Hn; simpl in *; try done; try lia.
  - by rewrite substring_all.
  - change (String c s = String c (String.substring 0 n s
            +:+ String.substring n (String.length s - n) s)).
    f_equal. apply IH. lia.
Qed.

Lemma endsWith_spec (s suffix : string) :
  endsWith s suffix = true ↔ ∃ p, s = p +:+ suffix.
Proof.
  unfold endsWith. rewrite andb_true_iff, bool_decide_eq_true, String.eqb_eq. split.
  - intros [Hle Hsub]. exists (String.substring 0 (String.length s - String.length suffix) s).
    assert (Hsplit := substring_split s (String.length s - String.length suffix)
                        ltac:(lia)).
    replace (String.length s - (String.length s - String.length suffix))%nat
      with (String.length suffix) in Hsplit by lia.
    by rewrite Hsub in Hsplit.
  - intros [p ->]. rewrite length_app_string. split; [lia|].
    replace (String.length p + String.length suffix - String.length suffix)%nat
      with (String.length p) by lia.
    by rewrite substring_skip, substring_all.
Qed.

(** X1. A contributor is taken for a bot exactly when its name ends in
    [[bot]] or is [snyk-bot]. *)
Theorem isContributorABot_spec (contributor : string) :
  isContributorABot contributor = true
  ↔ (∃ p, contributor = p +:+ "[bot]") ∨ contributor = "snyk-bot".
Proof.
  unfold isContributorABot, botAccounts.
  rewrite orb_true_iff, endsWith_spec, bool_decide_eq_true, list_elem_of_singleton.
  done.
Qed.

(** ** Bucket keys *)

Lemma hasColon_pretty_N_go (x : N) (s : string) :
  hasColon s = false → hasColon (pretty_N_go x s) = false.
Proof.
  revert s. induction (N.lt_wf_0 x) as [x _ IH]; intros s Hs.
  assert (x = 0 ∨ 0 < x)%N as [->|Hpos] by lia.
  - by rewrite pretty_N_go_0.
  - rewrite pretty_N_go_step by done. apply IH.
    + by apply N.div_lt.
    + simpl. rewrite Hs. unfold pretty_N_char. by repeat case_match.
Qed.

Lemma hasColon_pretty_Z (z : Z) : hasColon (pretty z) = false.
Proof.
  assert (HN : ∀ n : N, hasColon (pretty n) = false).
  { intros n. unfold pretty, pretty_N. case_decide; [done|].
    by apply hasColon_pretty_N_go. }
  destruct z as [|p|p]; [done | apply (HN (Npos p)) |].
  change (hasColon (String "-" (pretty (Npos p))) = false). simpl. apply HN.
Qed.

(** Two strings without a colon, each followed by a colon and a rest, are
    read back unambiguously. *)
Lemma colon_split (a b c d : string) :
  hasColon a = false → hasColon b = false →
  a +:+ ":" +:+ c = b +:+ ":" +:+ d → a = b ∧ c = d.
Proof.
  revert b. induction a as [|x a IH]; intros [|y b] Ha Hb Heq; simpl in *.
  - by injection Heq.
  - injection Heq as <- _. by rewrite bool_decide_eq_true_2 in Hb.
  - injection Heq as -> _. by rewrite bool_decide_eq_true_2 in Ha.
  - injection Heq as -> Heq.
    apply orb_false_iff in Ha as [_ Ha]. apply orb_false_iff in Hb as [_ Hb].
    destruct (IH b Ha Hb Heq) as [-> ->]. done.
Qed.

(** X2. Two records fall into the same bucket exactly when their creation
    dates have the same calendar year and the same ISO week number: the key
    string loses nothing of the pair it is built from. *)
Theorem getBucketKey_same_bucket (a b : GithubPullOrIssue) :
  getBucketKey a = getBucketKey b
  ↔ Luxon.year (Luxon.fromISO (created_at a)) = Luxon.year (Luxon.fromISO (created_at b))
    ∧ Luxon.weekNumber (Luxon.fromISO (created_at a))
      = Luxon.weekNumber (Luxon.fromISO (created_at b)).
Proof.
  unfold getBucketKey. split.
  - intros Heq. apply colon_split in Heq as [Hy Hw]; try apply hasColon_pretty_Z.
    split; by apply (inj pretty).
  - by intros [-> ->].
Qed.

(** ** The window *)

(** X3. The window only closes: a record that is in the window at one
    reading of the clock was in it at every earlier reading; once out, it
    stays out. *)
Theorem window_only_closes (now later : Z) (item : GithubPullOrIssue) :
  now ≤ later →
  isPullOrIssueWithinMetricsRange later item = true →
  isPullOrIssueWithinMetricsRange now item = true.
Proof. rewrite !inRange_spec. lia. Qed.

Lemma window_only_closes_witness :
  isPullOrIssueWithinMetricsRange (Luxon.fromISO (utc 2024 6 1 12 0 0))
    (mkItem (Some "alice") (utc 2024 6 1 12 0 0) None) = true.
Proof.
  apply (window_only_closes _ (Luxon.fromISO (utc 2024 6 1 12 0 0) + 86400000)).
  - vm_compute. discriminate.
  - vm_compute. reflexivity.
Defined.

(** ** More on first-seen attribution *)

Lemma get_Some_keys {V} k (o : list (string * V)) :
  is_Some (JsObject.get k o) ↔ k ∈ JsObject.keys o.
Proof.
  destruct (JsObject.get k o) eqn:Hg.
  - split; [|eauto]. intros _. destruct (decide (k ∈ JsObject.keys o)); [done|].
    apply get_None in n. congruence.
  - apply get_None in Hg. split; [by intros [? ?] | done].
Qed.

Lemma get_app {V} k (o1 o2 : list (string * V)) :
  JsObject.get k (o1 ++ o2)
    = match JsObject.get k o1 with Some v => Some v | None => JsObject.get k o2 end.
Proof.
  induction o1 as [|[k' v] o1 IH]; simpl; [done|].
  by destruct (decide (k = k')).
Qed.

Lemma get_update_ne {V} (f : V → V) k k' (o : list (string * V)) :
  k ≠ k' → JsObject.get k' (JsObject.update f k o) = JsObject.get k' o.
Proof.
  intros Hne. induction o as [|[k0 v] o IH]; simpl; [done|].
  destruct (decide (k = k0)) as [->|Hk0]; simpl.
  - by rewrite !decide_False by congruence.
  - destruct (decide (k' = k0)); [done | apply IH].
Qed.

(** The store once the bucket of the call is in place. *)
Lemma created_bucket key (buckets : list (string * list string)) :
  let created :=
    match JsObject.get key buckets with
    | Some _ => buckets
    | None => buckets ++ [(key, [])]
    end in
  JsObject.get key created = Some (default [] (JsObject.get key buckets))
  ∧ ∀ k, k ≠ key → JsObject.get k created = JsObject.get k buckets.
Proof.
  destruct (JsObject.get key buckets) eqn:Hg; simpl; [done|]. split.
  - rewrite get_app, Hg. simpl. by rewrite decide_True.
  - intros k Hk. rewrite get_app. simpl. rewrite decide_False by done.
    by destruct (JsObject.get k buckets).
Qed.

(** What a bucket holds after a call. *)
Lemma get_addNewContributorToBucket k key c (buckets : list (string * list string)) :
  JsObject.get k (addNewContributorToBucket key c buckets)
    = if decide (k = key)
      then Some ((if existsb (JsSet.has c) (JsObject.values buckets)
                  then id else JsSet.add c)
                   (default [] (JsObject.get key buckets)))
      else JsObject.get k buckets.
Proof.
  rewrite addNewContributorToBucket_eq. cbv zeta.
  destruct (created_bucket key buckets) as [Hkey Hother]. cbv zeta in Hkey, Hother.
  destruct (decide (k = key)) as [->|Hne];
    destruct (existsb (JsSet.has c) (JsObject.values buckets)).
  - done.
  - by rewrite get_update_eq, Hkey.
  - by apply Hother.
  - rewrite get_update_ne by done. by apply Hother.
Qed.

Lemma existsb_update_add c k (o : list (string * list string)) :
  k ∈ JsObject.keys o →
  existsb (JsSet.has c) (JsObject.values (JsObject.update (JsSet.add c) k o)) = true.
Proof.
  unfold JsObject.keys, JsObject.values.
  induction o as [|[k' s] o IH]; simpl; intros Hk.
  - by apply elem_of_nil in Hk.
  - destruct (decide (k = k')) as [->|Hne]; simpl.
    + apply orb_true_iff. left. apply has_true, elem_of_add. by left.
    + apply orb_true_iff. right. apply IH.
      apply elem_of_cons in Hk as [?|?]; [done | done].
Qed.

(** X4. A call never removes or reorders buckets: the keys after the call
    are the keys before it, followed by the key of the call when it is new. *)
Theorem addNewContributorToBucket_appends_key (key author : string)
    (buckets : list (string * list string)) :
  JsObject.keys (addNewContributorToBucket key author buckets)
    = JsObject.keys buckets
      ++ (if bool_decide (key ∈ JsObject.keys buckets) then [] else [key]).
Proof.
  rewrite addNewContributorToBucket_eq. cbv zeta.
  assert (Hkeys : JsObject.keys
            match JsObject.get key buckets with
            | Some _ => buckets
            | None => buckets ++ [(key, [])]
            end
          = JsObject.keys buckets
            ++ (if bool_decide (key ∈ JsObject.keys buckets) then [] else [key])).
  { destruct (JsObject.get key buckets) eqn:Hg.
    - rewrite bool_decide_eq_true_2 by (apply get_Some_keys; rewrite Hg; eauto).
      by rewrite app_nil_r.
    - rewrite bool_decide_eq_false_2 by (by apply get_None).
      unfold JsObject.keys. by rewrite fmap_app. }
  destruct (existsb _ _); [done|]. by rewrite keys_update.
Qed.

(** X5. First-seen attribution goes to the bucket of the call: when no
    bucket holds the author, the call puts the author into the bucket
    [key]. *)
Theorem addNewContributorToBucket_first_seen (key author : string)
    (buckets : list (string * list string)) :
  holders author buckets = [] →
  ∃ s, JsObject.get key (addNewContributorToBucket key author buckets) = Some s
       ∧ author ∈ s.
Proof.
  intros Hnone. apply holders_nil_iff in Hnone.
  rewrite get_addNewContributorToBucket, decide_True, Hnone by done.
  eexists. split; [done|]. apply elem_of_add. by left.
Qed.

Lemma addNewContributorToBucket_first_seen_witness :
  ∃ s, JsObject.get "2024:2"
         (addNewContributorToBucket "2024:2" "bob" [("2024:1", ["alice"])]) = Some s
       ∧ "bob" ∈ s.
Proof.
  apply (addNewContributorToBucket_first_seen "2024:2" "bob" [("2024:1", ["alice"])]).
  reflexivity.
Defined.

Lemma addNewContributorToBucket_held key author buckets :
  is_Some (JsObject.get key (addNewContributorToBucket key author buckets))
  ∧ existsb (JsSet.has author)
      (JsObject.values (addNewContributorToBucket key author buckets)) = true.
Proof.
  split.
  - rewrite get_addNewContributorToBucket, decide_True by done. eauto.
  - rewrite addNewContributorToBucket_eq. cbv zeta.
    destruct (existsb (JsSet.has author) (JsObject.values buckets)) eqn:Hex.
    + destruct (JsObject.get key buckets); [done|].
      unfold JsObject.values. rewrite fmap_app, existsb_app.
      unfold JsObject.values in Hex. by rewrite Hex.
    + apply existsb_update_add, get_Some_keys.
      destruct (created_bucket key buckets) as [Hkey _]. cbv zeta in Hkey.
      rewrite Hkey. eauto.
Qed.

(** X6. The call is idempotent: repeating it with the same key and author
    changes nothing. *)
Theorem addNewContributorToBucket_idempotent (key author : string)
    (buckets : list (string * list string)) :
  addNewContributorToBucket key author (addNewContributorToBucket key author buckets)
    = addNewContributorToBucket key author buckets.
Proof.
  destruct (addNewContributorToBucket_held key author buckets) as [[s Hs] Hex].
  rewrite (addNewContributorToBucket_eq key author
             (addNewContributorToBucket key author buckets)).
  cbv zeta. by rewrite Hs, Hex.
Qed.

(** X7. A call never takes a name out of a bucket: every bucket of the
    store is still there after the call and holds at least the names it
    held. *)
Theorem addNewContributorToBucket_keeps_names (key author k : string)
    (s : list string) (buckets : list (string * list string)) :
  JsObject.get k buckets = Some s →
  ∃ s', JsObject.get k (addNewContributorToBucket key author buckets) = Some s'
        ∧ s ⊆ s'.
Proof.
  intros Hk. rewrite get_addNewContributorToBucket.
  destruct (decide (k = key)) as [->|Hne]; [|by exists s].
  rewrite Hk. simpl. eexists. split; [done|].
  destruct (existsb _ _); [done|]. intros x Hx. apply elem_of_add. by right.
Qed.

Lemma addNewContributorToBucket_keeps_names_witness :
  ∃ s', JsObject.get "2024:1"
          (addNewContributorToBucket "2024:1" "bob" [("2024:1", ["alice"])]) = Some s'
        ∧ ["alice"] ⊆ s'.
Proof.
  apply (addNewContributorToBucket_keeps_names "2024:1" "bob" "2024:1" ["alice"]
           [("2024:1", ["alice"])]).
  reflexivity.
Defined.

(** ** Pull counts *)

Lemma step_pull_count st ev :
  bucketPullCount (step st ev)
    = match ev with
      | PullSeen _ pull =>
          JsObject.update Z.succ (getBucketKey pull)
            (JsObject.set (getBucketKey pull)
               (default 0 (JsObject.get (getBucketKey pull) (bucketPullCount st)))
               (bucketPullCount st))
      | IssueSeen _ _ => bucketPullCount st
      end.
Proof.
  destruct ev as [now item|now item]; simpl;
    [unfold getPullMetrics | unfold getIssueMetrics]; classify_cases now item; done.
Qed.

Lemma update_new_count k (c : list (string * Z)) :
  JsObject.get k c = None →
  JsObject.update Z.succ k (c ++ [(k, 0)]) = c ++ [(k, 1)].
Proof.
  induction c as [|[k' v] c IH]; simpl; intros Hg.
  - by rewrite decide_True.
  - destruct (decide (k = k')); [done|]. by rewrite IH.
Qed.

Lemma total_app (l1 l2 : list Z) : total (l1 ++ l2) = total l1 + total l2.
Proof. unfold total. induction l1 as [|x l1 IH]; simpl; lia. Qed.

Lemma update_succ_total k (c : list (string * Z)) :
  k ∈ JsObject.keys c →
  total (JsObject.values (JsObject.update Z.succ k c)) = total (JsObject.values c) + 1.
Proof.
  unfold JsObject.keys, JsObject.values, total.
  induction c as [|[k' v] c IH]; simpl; intros Hk.
  - by apply elem_of_nil in Hk.
  - destruct (decide (k = k')) as [->|Hne]; simpl; [lia|].
    apply elem_of_cons in Hk as [?|Hk]; [done|].
    change (v + foldr Z.add 0 (JsObject.update Z.succ k c).*2
            = v + foldr Z.add 0 c.*2 + 1).
    rewrite (IH Hk). lia.
Qed.

Lemma update_Forall {V} (P : V → Prop) (f : V → V) k (o : list (string * V)) :
  (∀ v, P v → P (f v)) →
  Forall P (JsObject.values o) → Forall P (JsObject.values (JsObject.update f k o)).
Proof.
  intros Hf. unfold JsObject.values.
  induction o as [|[k' v] o IH]; simpl; intros Ho; [done|].
  apply Forall_cons in Ho as [Hv Ho].
  destruct (decide (k = k')); simpl; apply Forall_cons; auto.
Qed.

(** X8. However the pull requests spread over the weeks, the buckets of
    [bucketPullCount] have distinct keys, each counts at least one pull
    request, and the counts add up to the number of pull requests
    classified; issues count for nothing. *)
Theorem pull_counts_add_up (withSubset : bool) (repos : list RepoData) :
  NoDup (JsObject.keys (bucketPullCount (collect withSubset repos)))
  ∧ Forall (λ count, 1 ≤ count) (pullCounts (collect withSubset repos))
  ∧ total (pullCounts (collect withSubset repos))
    = Z.of_nat (length (List.filter isPullEvent (events withSubset repos))).
Proof.
  rewrite collect_run. unfold pullCounts.
  induction (events withSubset repos) as [|ev evs (IHk & IHp & IHt)] using rev_ind.
  - split_and!; [apply NoDup_nil_2 | apply Forall_nil_2 | done].
  - rewrite run_snoc, step_pull_count, List.filter_app, length_app.
    destruct ev as [now pull|now issue]; simpl.
    + rewrite set_get_default.
      destruct (JsObject.get (getBucketKey pull) (bucketPullCount (run evs))) eqn:Hg.
      * rewrite keys_update. split_and!; [done | |].
        -- apply update_Forall; [lia | done].
        -- rewrite update_succ_total, IHt; [lia|].
           apply get_Some_keys. rewrite Hg. eauto.
      * rewrite update_new_count by done. split_and!.
        -- unfold JsObject.keys. rewrite fmap_app. apply NoDup_app.
           split_and!; [done | | apply NoDup_singleton].
           intros k Hk Hk'. apply list_elem_of_singleton in Hk'. subst.
           by apply get_None in Hg.
        -- unfold JsObject.values. rewrite fmap_app. apply Forall_app. split; [done|].
           apply Forall_singleton. simpl. lia.
        -- unfold JsObject.values. rewrite fmap_app, total_app.
           unfold JsObject.values in IHt. rewrite IHt. unfold total. simpl. lia.
    + split_and!; [done | done | rewrite IHt; lia].
Qed.

(** ** Closure samples, in full *)

Lemma closureSample_eq now item : closureSample now item = sampledDuration now item.
Proof.
  unfold closureSample, sampledDuration. rewrite getSecondsToClose_eq.
  destruct (closed_at item) as [closed|]; simpl; [|by rewrite andb_false_r].
  destruct (isPullOrIssueWithinMetricsRange now item) eqn:Hin; simpl.
  - apply inRange_spec in Hin.
    destruct (Z.eqb_spec (closed - created_at item) 0); simpl.
    + rewrite bool_decide_eq_false_2; [done | lia].
    + rewrite bool_decide_eq_true_2; [done | lia].
  - apply not_true_iff_false in Hin. rewrite inRange_spec in Hin.
    rewrite bool_decide_eq_false_2; [done | tauto].
Qed.

Lemma run_issue_seconds (evs : list Event) :
  secondsToCloseIssues (run evs) = omap issueSample evs.
Proof.
  induction evs as [|ev evs IH] using rev_ind; [done|].
  rewrite run_snoc, omap_app. simpl. destruct ev as [now pull|now issue]; simpl.
  - destruct (getPullMetrics_seconds now pull (run evs)) as [_ ->].
    by rewrite IH, app_nil_r.
  - destruct (getIssueMetrics_seconds now issue (run evs)) as [-> _]. rewrite IH.
    by destruct (closureSample now issue).
Qed.

Lemma omap_ext_events (f g : Event → option Z) (evs : list Event) :
  (∀ ev, f ev = g ev) → omap f evs = omap g evs.
Proof.
  intros Hfg. induction evs as [|ev evs IH]; [done|].
  simpl. rewrite Hfg. destruct (g ev); [f_equal|]; exact IH.
Qed.

(** X9. The two closure stores, in full: [secondsToClosePulls] lists, in
    the order of classification, [closed_at - created_at] in seconds for the
    pull requests that are closed, were created less than 30 days before
    they were classified and were not closed in the second of their
    creation; [secondsToCloseIssues] lists the same for the issues. Neither
    kind adds to the store of the other. *)
Theorem closure_samples_in_full (withSubset : bool) (repos : list RepoData) :
  secondsToClosePulls (collect withSubset repos)
    = omap pullDuration (events withSubset repos)
  ∧ secondsToCloseIssues (collect withSubset repos)
    = omap issueDuration (events withSubset repos).
Proof.
  rewrite collect_run, run_pull_seconds, run_issue_seconds. split.
  - apply omap_ext_events. intros [now pull|now issue]; simpl; [|done].
    apply closureSample_eq.
  - apply omap_ext_events. intros [now pull|now issue]; simpl; [done|].
    apply closureSample_eq.
Qed.

(** X10. No closure sample is ever 0, in either store. *)
Theorem no_zero_sample (withSubset : bool) (repos : list RepoData) :
  Forall (λ seconds, seconds ≠ 0) (secondsToClosePulls (collect withSubset repos))
  ∧ Forall (λ seconds, seconds ≠ 0) (secondsToCloseIssues (collect withSubset repos)).
Proof.
  assert (Hnz : ∀ now item v, sampledDuration now item = Some v → v ≠ 0).
  { intros now item v. unfold sampledDuration.
    destruct (closed_at item) as [closed|]; [|done].
    case_bool_decide as Hd; [|done]. intros [= <-]. lia. }
  rewrite collect_run, run_pull_seconds, run_issue_seconds.
  split; apply Forall_forall; intros v Hv; apply list_elem_of_omap in Hv as (ev & _ & Hev);
    destruct ev as [now item|now item]; simpl in Hev; try done;
    rewrite closureSample_eq in Hev; by eapply Hnz.
Qed.

(** ** The contributor lists of the snapshot, in order *)

Lemma filter_ext_in {A} (P Q : A → Prop) `{∀ x, Decision (P x)} `{∀ x, Decision (Q x)}
    (l : list A) :
  (∀ x, x ∈ l → P x ↔ Q x) → filter P l = filter Q l.
Proof.
  induction l as [|a l IH]; intros Hext; [done|].
  rewrite !filter_cons.
  assert (Ha : P a ↔ Q a) by (apply Hext; by left).
  assert (Hl : filter P l = filter Q l).
  { apply IH. intros x Hx. apply Hext. by right. }
  destruct (decide (P a)), (decide (Q a)); try tauto; by rewrite Hl.
Qed.

Lemma filter_all {A} (P : A → Prop) `{∀ x, Decision (P x)} (l : list A) :
  (∀ x, x ∈ l → P x) → filter P l = l.
Proof.
  induction l as [|a l IH]; intros Hall; [done|].
  rewrite filter_cons_True by (apply Hall; by left).
  f_equal. apply IH. intros x Hx. apply Hall. by right.
Qed.

Lemma add_fresh x s : x ∉ s → JsSet.add x s = s ++ [x].
Proof. intros Hx. unfold JsSet.add. apply has_false in Hx. by rewrite Hx. Qed.

(** The walk of the reconciliation, as lists. *)
Lemma foldl_reconcileName_lists (l : list string) (st : Stores) :
  NoDup l →
  namesOfContributors (foldl reconcileName st l)
    = namesOfContributors st ++ filter (λ y, y ∉ namesOfContributors st) l
  ∧ namesOfRecentContributors (foldl reconcileName st l)
    = filter (λ y, ¬ (y ∈ l ∧ y ∈ namesOfContributors st))
        (namesOfRecentContributors st).
Proof.
  revert st. induction l as [|name l IH]; intros st Hnd; simpl.
  - split; [by rewrite app_nil_r|].
    symmetry. apply filter_all. intros y _ [Hy _]. by apply elem_of_nil in Hy.
  - apply NoDup_cons in Hnd as [Hname Hnd].
    destruct (IH (reconcileName st name) Hnd) as [-> ->]. clear IH.
    unfold reconcileName.
    destruct (JsSet.has name (namesOfContributors st)) eqn:Hhas; simpl.
    + apply has_true in Hhas. split.
      * by rewrite filter_cons_False by tauto.
      * unfold JsSet.delete. rewrite list_filter_filter.
        apply filter_ext_in. intros y _. rewrite elem_of_cons. split.
        -- intros [Hn Hne] [[->|Hl] Hk]; tauto.
        -- intros Hn. split; [tauto|]. intros ->. tauto.
    + apply has_false in Hhas. rewrite add_fresh by done. split.
      * rewrite filter_cons_True by done. rewrite <- app_assoc. simpl. do 2 f_equal.
        apply filter_ext_in. intros y Hy. rewrite elem_of_app, list_elem_of_singleton.
        split; [tauto|]. intros Hn [?|Heq]; [tauto | subst; tauto].
      * apply filter_ext_in. intros y _.
        rewrite elem_of_app, list_elem_of_singleton, elem_of_cons. split.
        -- intros Hn [[Heq|Hl] Hk]; [subst; tauto | tauto].
        -- intros Hn [Hl [Hk|Heq]]; [tauto | subst; tauto].
Qed.

Lemma reconcile_lists (st : Stores) :
  NoDup (namesOfRecentContributors st) →
  namesOfRecentContributors (reconcile st)
    = filter (λ y, y ∉ namesOfContributors st) (namesOfRecentContributors st)
  ∧ namesOfContributors (reconcile st)
    = namesOfContributors st ++ namesOfRecentContributors (reconcile st).
Proof.
  intros Hnd. unfold reconcile.
  destruct (foldl_reconcileName_lists (namesOfRecentContributors st) st Hnd) as [-> ->].
  assert (Heq : filter (λ y, ¬ (y ∈ namesOfRecentContributors st
                                 ∧ y ∈ namesOfContributors st))
                  (namesOfRecentContributors st)
                = filter (λ y, y ∉ namesOfContributors st)
                    (namesOfRecentContributors st)).
  { apply filter_ext_in. intros y Hy. tauto. }
  by rewrite Heq.
Qed.

Lemma reconcile_NoDup (st : Stores) :
  NoDup (namesOfContributors st) → NoDup (namesOfRecentContributors st) →
  NoDup (namesOfContributors (reconcile st))
  ∧ NoDup (namesOfRecentContributors (reconcile st)).
Proof.
  intros Hk Hr. destruct (reconcile_lists st Hr) as [Hrecent Hknown].
  assert (Hnew : NoDup (namesOfRecentContributors (reconcile st))).
  { rewrite Hrecent. by apply NoDup_filter. }
  split; [|done]. rewrite Hknown. apply NoDup_app. split_and!; [done | | done].
  intros x Hx. rewrite Hrecent, list_elem_of_filter. tauto.
Qed.

Lemma elem_of_firstOccurrences x (names : list string) :
  x ∈ firstOccurrences names ↔ x ∈ names.
Proof.
  induction names as [|n names IH]; simpl; [done|].
  rewrite !elem_of_cons, list_elem_of_filter, IH.
  destruct (decide (x = n)); tauto.
Qed.

(** Adding a name to a set is adding it to the list its names came from. *)
Lemma firstOccurrences_snoc (names : list string) (x : string) :
  firstOccurrences (names ++ [x]) = JsSet.add x (firstOccurrences names).
Proof.
  induction names as [|n names IH]; simpl.
  - by rewrite add_fresh by apply not_elem_of_nil.
  - rewrite IH. unfold JsSet.add.
    destruct (JsSet.has x (firstOccurrences names)) eqn:Hx.
    + apply has_true in Hx.
      assert (Hin : JsSet.has x (n :: filter (λ other, other ≠ n) (firstOccurrences names))
                    = true).
      { apply has_true. rewrite elem_of_cons, list_elem_of_filter.
        destruct (decide (x = n)); tauto. }
      by rewrite Hin.
    + apply has_false in Hx. rewrite filter_app.
      destruct (decide (x = n)) as [->|Hne].
      * rewrite filter_cons_False by tauto.
        assert (Hin : JsSet.has n (n :: filter (λ other, other ≠ n)
                                          (firstOccurrences names)) = true).
        { apply has_true. by left. }
        rewrite Hin. by rewrite app_nil_r.
      * rewrite filter_cons_True by done.
        assert (Hout : JsSet.has x (n :: filter (λ other, other ≠ n)
                                           (firstOccurrences names)) = false).
        { apply has_false. rewrite elem_of_cons, list_elem_of_filter. tauto. }
        by rewrite Hout.
Qed.

(** The provisional sets list their authors by first record. *)
Lemma run_first_occurrences (evs : list Event) :
  namesOfContributors (run evs) = firstOccurrences (omap outOfWindowAuthor evs)
  ∧ namesOfRecentContributors (run evs) = firstOccurrences (omap inWindowAuthor evs).
Proof.
  induction evs as [|ev evs [IHk IHr]] using rev_ind; [done|].
  rewrite run_snoc, !omap_app. pose proof (step_contributors (run evs) ev) as Hs.
  cbv zeta in Hs. simpl. unfold outOfWindowAuthor, inWindowAuthor.
  destruct (trackedAuthor (eventItem ev)) as [l|].
  - destruct Hs as (_ & -> & ->). rewrite IHk, IHr.
    destruct (eventInRange ev); simpl; by rewrite ?app_nil_r, ?firstOccurrences_snoc.
  - destruct Hs as (_ & -> & ->). rewrite IHk, IHr.
    destruct (eventInRange ev); simpl; by rewrite ?app_nil_r.
Qed.

(** X11. The contributor lists of the snapshot, as lists. Neither repeats
    a name. [namesOfContributors] starts with the authors of the records
    out of the window, in the order of the first such record of each, and
    ends with [namesOfContributorsNew]: the authors of the records in the
    window, in the order of the first such record of each, without those
    who have a record out of the window. *)
Theorem snapshot_lists_in_order (withSubset : bool) (repos : list RepoData)
    (adopters : list string) :
  let evs := events withSubset repos in
  let m := computeMetrics adopters (collect withSubset repos) in
  let old := firstOccurrences (omap outOfWindowAuthor evs) in
  Snapshot.namesOfContributorsNew m
    = filter (λ name, name ∉ old) (firstOccurrences (omap inWindowAuthor evs))
  ∧ Snapshot.namesOfContributors m = old ++ Snapshot.namesOfContributorsNew m
  ∧ NoDup (Snapshot.namesOfContributors m)
  ∧ NoDup (Snapshot.namesOfContributorsNew m).
Proof.
  simpl. rewrite collect_run.
  destruct (run_NoDup (events withSubset repos)) as [Hk Hr].
  destruct (reconcile_lists (run (events withSubset repos)) Hr) as [Hrecent Hknown].
  destruct (reconcile_NoDup (run (events withSubset repos)) Hk Hr) as [? ?].
  destruct (run_first_occurrences (events withSubset repos)) as [Hold Hnew].
  rewrite Hold, Hnew in Hrecent. rewrite Hold in Hknown.
  by split_and!.
Qed.

(** ** New contributors per week *)

Lemma bucket_names_created key (buckets : list (string * list string)) :
  concat (JsObject.values
    match JsObject.get key buckets with
    | Some _ => buckets
    | None => buckets ++ [(key, [])]
    end) = concat (JsObject.values buckets).
Proof.
  destruct (JsObject.get key buckets); [done|].
  unfold JsObject.values. rewrite fmap_app, concat_app. simpl. by rewrite !app_nil_r.
Qed.

Lemma bucket_names_update_perm c k (o : list (string * list string)) :
  k ∈ JsObject.keys o → c ∉ concat (JsObject.values o) →
  concat (JsObject.values (JsObject.update (JsSet.add c) k o))
    ≡ₚ c :: concat (JsObject.values o).
Proof.
  unfold JsObject.keys, JsObject.values.
  induction o as [|[k' s] o IH]; simpl; intros Hk Hc.
  - by apply elem_of_nil in Hk.
  - rewrite elem_of_app in Hc. destruct (decide (k = k')) as [->|Hne]; simpl.
    + rewrite add_fresh by tauto. rewrite <- app_assoc. simpl.
      by rewrite <- Permutation_middle.
    + apply elem_of_cons in Hk as [?|Hk]; [done|].
      change (s ++ concat (JsObject.update (JsSet.add c) k o).*2 ≡ₚ c :: s ++ concat o.*2).
      rewrite (IH Hk) by tauto. by rewrite <- Permutation_middle.
Qed.

Lemma existsb_has_names c (buckets : list (string * list string)) :
  existsb (JsSet.has c) (JsObject.values buckets) = true
  ↔ c ∈ concat (JsObject.values buckets).
Proof.
  rewrite elem_of_bucket_names, <- holders_nil_iff.
  destruct (existsb _ _); split; done.
Qed.

(** After a call the names held are those held before and the author, and
    no name is held twice if none was. *)
Lemma addNewContributorToBucket_names key c (buckets : list (string * list string)) :
  (∀ x, x ∈ concat (JsObject.values (addNewContributorToBucket key c buckets))
        ↔ x = c ∨ x ∈ concat (JsObject.values buckets))
  ∧ (NoDup (concat (JsObject.values buckets)) →
     NoDup (concat (JsObject.values (addNewContributorToBucket key c buckets)))).
Proof.
  rewrite addNewContributorToBucket_eq. cbv zeta.
  destruct (existsb (JsSet.has c) (JsObject.values buckets)) eqn:Hex.
  - rewrite bucket_names_created. apply existsb_has_names in Hex. split; [|done].
    intros x. split; [tauto | by intros [->|?]].
  - assert (Hc : c ∉ concat (JsObject.values buckets)).
    { rewrite <- existsb_has_names. by rewrite Hex. }
    assert (Hperm : concat (JsObject.values (JsObject.update (JsSet.add c) key
              match JsObject.get key buckets with
              | Some _ => buckets
              | None => buckets ++ [(key, [])]
              end)) ≡ₚ c :: concat (JsObject.values buckets)).
    { rewrite <- (bucket_names_created key buckets). apply bucket_names_update_perm.
      - apply get_Some_keys. destruct (created_bucket key buckets) as [Hkey _].
        cbv zeta in Hkey. rewrite Hkey. eauto.
      - by rewrite bucket_names_created. }
    split.
    + intros x. by rewrite Hperm, elem_of_cons.
    + intros Hnd. rewrite Hperm. by apply NoDup_cons.
Qed.

(** During a run the buckets hold, once each, the names of the two
    provisional sets. *)
Lemma run_bucket_names (evs : list Event) :
  NoDup (concat (JsObject.values (bucketNewContributors (run evs))))
  ∧ ∀ x, x ∈ concat (JsObject.values (bucketNewContributors (run evs)))
         ↔ x ∈ namesOfContributors (run evs) ∨ x ∈ namesOfRecentContributors (run evs).
Proof.
  induction evs as [|ev evs [IHn IHx]] using rev_ind.
  - split; [apply NoDup_nil_2|]. intros x. simpl. rewrite elem_of_nil. tauto.
  - rewrite run_snoc. pose proof (step_contributors (run evs) ev) as Hs.
    cbv zeta in Hs. destruct (trackedAuthor (eventItem ev)) as [l|].
    + destruct Hs as (-> & -> & ->).
      destruct (addNewContributorToBucket_names (getBucketKey (eventItem ev)) l
                  (bucketNewContributors (run evs))) as [Hx Hn].
      split; [by apply Hn|]. intros x. rewrite Hx, IHx.
      destruct (eventInRange ev); simpl; rewrite elem_of_add; tauto.
    + by destruct Hs as (-> & -> & ->).
Qed.

Lemma total_sizes (sets : list (list string)) :
  total (JsSet.size <$> sets) = Z.of_nat (length (concat sets)).
Proof.
  induction sets as [|s sets IH]; [done|].
  change (total (JsSet.size <$> s :: sets))
    with (JsSet.size s + total (JsSet.size <$> sets)).
  change (concat (s :: sets)) with (s ++ concat sets).
  rewrite IH, length_app. unfold JsSet.size. lia.
Qed.

(** X12. Every contributor of the snapshot is new in exactly one week: the
    weekly counts of new contributors add up to the length of
    [namesOfContributors], and each listed contributor is held by exactly
    one bucket. *)
Theorem weekly_new_contributors_add_up (withSubset : bool) (repos : list RepoData)
    (adopters : list string) :
  let m := computeMetrics adopters (collect withSubset repos) in
  total (contributorCounts (collect withSubset repos))
    = Z.of_nat (length (Snapshot.namesOfContributors m))
  ∧ Forall (λ name,
      length (holders name (bucketNewContributors (collect withSubset repos))) = 1%nat)
      (Snapshot.namesOfContributors m).
Proof.
  simpl. rewrite collect_run.
  destruct (run_bucket_names (events withSubset repos)) as [Hbn Hbx].
  destruct (run_NoDup (events withSubset repos)) as [Hk Hr].
  destruct (reconcile_NoDup (run (events withSubset repos)) Hk Hr) as [Hnd _].
  assert (Hsame : ∀ x, x ∈ concat (JsObject.values
                          (bucketNewContributors (run (events withSubset repos))))
                  ↔ x ∈ namesOfContributors (reconcile (run (events withSubset repos)))).
  { intros x. rewrite Hbx.
    destruct (reconcile_names (run (events withSubset repos)) x Hr) as [-> _]. done. }
  split.
  - unfold contributorCounts. rewrite total_sizes. f_equal.
    apply Permutation_length. by apply NoDup_Permutation.
  - apply Forall_forall. intros x Hx. apply Hsame in Hx.
    apply elem_of_bucket_names in Hx.
    destruct (run_first_seen (events withSubset repos) x) as [_ Hle].
    destruct (holders x _); simpl in *; [done | lia].
Qed.

(** ** The week an author is new in *)

Lemma run_app (l1 l2 : list Event) : run (l1 ++ l2) = foldl step (run l1) l2.
Proof. unfold run. apply foldl_app. Qed.

Lemma step_keeps_held st ev k s x :
  JsObject.get k (bucketNewContributors st) = Some s → x ∈ s →
  ∃ s', JsObject.get k (bucketNewContributors (step st ev)) = Some s' ∧ x ∈ s'.
Proof.
  intros Hk Hx. pose proof (step_contributors st ev) as Hs. cbv zeta in Hs.
  destruct (trackedAuthor (eventItem ev)) as [l|].
  - destruct Hs as (-> & _). rewrite get_addNewContributorToBucket.
    destruct (decide (k = getBucketKey (eventItem ev))) as [->|Hne]; [|eauto].
    rewrite Hk. simpl. eexists. split; [done|].
    destruct (existsb _ _); [done|]. apply elem_of_add. by right.
  - destruct Hs as (-> & _). eauto.
Qed.

Lemma foldl_step_keeps_held (evs : list Event) st k s x :
  JsObject.get k (bucketNewContributors st) = Some s → x ∈ s →
  ∃ s', JsObject.get k (bucketNewContributors (foldl step st evs)) = Some s' ∧ x ∈ s'.
Proof.
  revert st s. induction evs as [|ev evs IH]; intros st s Hk Hx; simpl; [eauto|].
  destruct (step_keeps_held st ev k s x Hk Hx) as (s' & Hk' & Hx'). by eapply IH.
Qed.

(** X13. The first record decides: an author is new in the bucket of the
    first of their records to be classified, whatever the creation dates of
    the records that come after. *)
Theorem first_record_decides_week (before after : list Event) (ev : Event)
    (author : string) :
  trackedAuthor (eventItem ev) = Some author →
  (∀ e, e ∈ before → trackedAuthor (eventItem e) ≠ Some author) →
  ∃ s, JsObject.get (getBucketKey (eventItem ev))
         (bucketNewContributors (run (before ++ ev :: after))) = Some s
       ∧ author ∈ s.
Proof.
  intros Hev Hbefore.
  rewrite run_app. simpl.
  assert (Hfresh : existsb (JsSet.has author)
                     (JsObject.values (bucketNewContributors (run before))) = false).
  { apply not_true_iff_false. rewrite existsb_has_names. intros Hin.
    destruct (run_contributorNames before author) as (e & He & Ht).
    - unfold contributorNames. rewrite !elem_of_app. tauto.
    - by apply (Hbefore e). }
  pose proof (step_contributors (run before) ev) as Hs. cbv zeta in Hs.
  rewrite Hev in Hs. destruct Hs as (Hb & _).
  eapply foldl_step_keeps_held.
  - rewrite Hb, get_addNewContributorToBucket, decide_True, Hfresh by done. done.
  - apply elem_of_add. by left.
Qed.

Lemma first_record_decides_week_witness :
  ∃ s, JsObject.get "2024:24" (bucketNewContributors (run bobThenAliceTwice)) = Some s
       ∧ "alice" ∈ s.
Proof.
  apply (first_record_decides_week
           [PullSeen (Luxon.fromISO (utc 2024 6 20 0 0 0))
              (mkItem (Some "bob") (utc 2024 6 3 12 0 0) None)]
           [PullSeen (Luxon.fromISO (utc 2024 6 20 0 0 0))
              (mkItem (Some "alice") (utc 2024 6 17 12 0 0) None)]
           (PullSeen (Luxon.fromISO (utc 2024 6 20 0 0 0))
              (mkItem (Some "alice") (utc 2024 6 10 12 0 0) None))
           "alice").
  - reflexivity.
  - intros e He. apply list_elem_of_singleton in He. subst e. vm_compute. discriminate.
Defined.

(** ** The listings *)








Lemma issueEvents_filter (page : list (Z * GithubPullOrIssue)) :
  issueEvents (filter (λ p, pull_request p.2 = false) page) = issueEvents page.
Proof.
  unfold issueEvents. f_equal. rewrite list_filter_filter.
  apply filter_ext_in. intros p _. tauto.
Qed.

(** X15. The records of the issue listing that carry a [pull_request]
    property are passed over: the stores are those of the run over the
    listings without them. *)
Theorem pull_requests_among_issues_ignored (withSubset : bool) (repos : list RepoData) :
  collect withSubset repos = collect withSubset (issuesOnly <$> repos).
Proof.
  rewrite !collect_run. f_equal. unfold events. f_equal.
  rewrite <- list_fmap_compose. apply list_fmap_ext. intros _ repo _. simpl.
  unfold repoEvents, issuesOnly. simpl. f_equal. f_equal.
  assert (Hpages : pagesRead withSubset
            (filter (λ p, pull_request p.2 = false) <$> issuePages repo)
          = filter (λ p, pull_request p.2 = false)
              <$> pagesRead withSubset (issuePages repo)).
  { unfold pagesRead. destruct withSubset; [by rewrite fmap_take | done]. }
  rewrite Hpages, <- list_fmap_compose. apply list_fmap_ext. intros _ page _. simpl.
  symmetry. apply issueEvents_filter.
Qed.

(** ** The adopter list, when it parses *)

Lemma fromArray_spec (names : list string) :
  NoDup (JsSet.fromArray names) ∧ ∀ x, x ∈ JsSet.fromArray names ↔ x ∈ names.
Proof.
  unfold JsSet.fromArray.
  cut (∀ acc, NoDup acc →
         NoDup (foldl (λ s x, JsSet.add x s) acc names)
         ∧ ∀ x, x ∈ foldl (λ s x, JsSet.add x s) acc names ↔ x ∈ acc ∨ x ∈ names).
  { intros H. destruct (H [] ltac:(apply NoDup_nil_2)) as [Hnd Hx]. split; [done|].
    intros x. rewrite Hx, elem_of_nil. tauto. }
  induction names as [|n names IH]; intros acc Hacc; simpl.
  - split; [done|]. intros x. rewrite elem_of_nil. tauto.
  - destruct (IH (JsSet.add n acc) (NoDup_add n acc Hacc)) as [Hnd Hx]. split; [done|].
    intros x. rewrite Hx, elem_of_add, elem_of_cons. tauto.
Qed.

(** X16. When the document is fetched and parses, [getAdopterList] resolves
    to the names of the document sorted in ascending order, each once, and
    logs them before sorting. *)
Theorem adopter_list_sorted_without_repeats (w : World) (content : string)
    (names : list string) :
  adopterResponse w = Resolved content →
  yamlContributors w content = Some names →
  ∃ adopters,
    getAdopterList w = ([ConsoleLog (JsSet.fromArray names)], Resolved adopters)
    ∧ StronglySorted String.le adopters
    ∧ NoDup adopters
    ∧ ∀ x, x ∈ adopters ↔ x ∈ names.
Proof.
  intros Hr Hy. unfold getAdopterList. rewrite Hr, Hy.
  destruct (fromArray_spec names) as [Hnd Hx].
  eexists. split; [done|]. split_and!.
  - apply StronglySorted_merge_sort; apply _.
  - by rewrite merge_sort_Permutation.
  - intros x. by rewrite merge_sort_Permutation.
Qed.

Lemma adopter_list_sorted_without_repeats_witness :
  ∃ adopters,
    getAdopterList threeAdopters
      = ([ConsoleLog (JsSet.fromArray ["SciLifeLab"; "QBiC"; "SciLifeLab"])],
         Resolved adopters)
    ∧ StronglySorted String.le adopters
    ∧ NoDup adopters
    ∧ ∀ x, x ∈ adopters ↔ x ∈ ["SciLifeLab"; "QBiC"; "SciLifeLab"].
Proof.
  exact (adopter_list_sorted_without_repeats threeAdopters "contributors: ..."
           ["SciLifeLab"; "QBiC"; "SciLifeLab"] eq_refl eq_refl).
Defined.

(** ** How a run ends *)

Lemma forAwait_rejected {A} (withSubset : bool) (f : Stores → list A → Stores)
    (listing : Listing A) (st : Stores) :
  forAwait withSubset (λ st data, Resolved (f st data)) st listing = Rejected
  ↔ anyRejected (requested withSubset listing) = true.
Proof.
  revert st. induction listing as [|[|data] rest IH]; intros st; simpl.
  - by destruct withSubset.
  - by destruct withSubset.
  - destruct withSubset; [done|]. apply IH.
Qed.

Lemma fetchRepo_rejected withSubset st repo :
  fetchRepo withSubset st repo = Rejected ↔ repoFails withSubset repo = true.
Proof.
  unfold fetchRepo, repoFails. rewrite orb_true_iff.
  destruct (forAwait withSubset _ st (pullListing repo)) as [|st1] eqn:Hp.
  - apply forAwait_rejected in Hp. tauto.
  - assert (Hnp : anyRejected (requested withSubset (pullListing repo)) ≠ true).
    { rewrite <- (forAwait_rejected withSubset forEachPull _ st), Hp. done. }
    rewrite forAwait_rejected. tauto.
Qed.

Lemma fetchRepos_rejected withSubset repos st :
  fetchRepos withSubset st repos = Rejected ↔ existsb (repoFails withSubset) repos = true.
Proof.
  revert st. induction repos as [|repo repos IH]; intros st; simpl; [done|].
  rewrite orb_true_iff.
  destruct (fetchRepo withSubset st repo) as [|st1] eqn:Hr.
  - apply fetchRepo_rejected in Hr. tauto.
  - assert (Hnr : repoFails withSubset repo ≠ true).
    { rewrite <- (fetchRepo_rejected withSubset st), Hr. done. }
    rewrite IH. tauto.
Qed.

(** The collection phase is rejected exactly when one of the page requests
    it makes is. *)
Lemma fetchMetrics_rejected withSubset org :
  fetchMetrics withSubset org = Rejected ↔ listingFails withSubset org = true.
Proof.
  unfold fetchMetrics, listingFails. generalize initialStores.
  induction org as [|[|page] rest IH]; intros st; simpl; [done | done |].
  rewrite existsb_app.
  destruct (fetchRepos withSubset st page) as [|st1] eqn:Hp.
  - apply fetchRepos_rejected in Hp. rewrite Hp, orb_true_r. done.
  - assert (Hnp : existsb (repoFails withSubset) page = false).
    { apply not_true_iff_false. rewrite <- (fetchRepos_rejected withSubset page st), Hp.
      done. }
    rewrite Hnp. simpl. apply IH.
Qed.

(** X17. [main] fails in three ways only: the metrics were asked for and a
    page request of a listing was rejected (a page of repositories, or,
    for a repository of a page that arrived, the first page of its pull
    requests or of its issues, or any page of them without [withSubset]);
    the adopter list was asked for and its fetch was rejected; the commit
    was asked for and rejected. In every other case it completes, and it
    has committed exactly when [commitChanges] was given. *)
Theorem main_aborts_only_on_rejection (flags : Flags) (w : World) :
  (main flags w = Aborted
   ↔ (withMetrics flags = true ∧ listingFails (withSubset flags) (orgListing w) = true)
     ∨ (withAdopterList flags = true ∧ adopterResponse w = Rejected)
     ∨ (commitChanges flags = true ∧ commitResponse w = Rejected))
  ∧ match main flags w with
    | Aborted => True
    | Completed _ committed => committed = commitChanges flags
    end.
Proof.
  assert (Hlist : collected flags w = Rejected
                  ↔ withMetrics flags = true
                    ∧ listingFails (withSubset flags) (orgListing w) = true).
  { unfold collected. destruct (withMetrics flags).
    - rewrite fetchMetrics_rejected. tauto.
    - split; [done | by intros [? _]]. }
  unfold main, getAdopterList.
  destruct (collected flags w) as [|st].
  { split; [|done]. split; [intros _; left; by apply Hlist | done]. }
  assert (Hok : ¬ (withMetrics flags = true
                   ∧ listingFails (withSubset flags) (orgListing w) = true)).
  { intros H. by apply Hlist in H. }
  destruct (withAdopterList flags), (adopterResponse w) as [|content],
    (commitChanges flags), (commitResponse w) as [|[]]; simpl;
    try destruct (yamlContributors w content); simpl;
    (split; [split; [try done; tauto | intros [?|[[? ?]|[? ?]]]; done] | done]).
Qed.

(** ** The order of classification *)

(** X18. Who is a contributor and who is a new one does not depend on the
    order in which the records are classified, nor on the clock readings,
    as long as no record changes sides of the window: two runs that
    classify the same records with the same verdicts of the window, in any
    order and at any times, list the same sets of names (the bucket an
    author is new in does depend on the order). *)
Theorem contributor_sets_order_independent (evs evs' : list Event)
    (adopters : list string) :
  verdict <$> evs ≡ₚ verdict <$> evs' →
  established (computeMetrics adopters (run evs))
    = established (computeMetrics adopters (run evs'))
  ∧ recent (computeMetrics adopters (run evs))
    = recent (computeMetrics adopters (run evs')).
Proof.
  intros Hperm.
  assert (Hverdict : ∀ (l : list Event) x b,
    (∃ ev, ev ∈ l ∧ trackedAuthor (eventItem ev) = Some x ∧ eventInRange ev = b)
    ↔ ∃ v, v ∈ verdict <$> l ∧ trackedAuthor v.1 = Some x ∧ v.2 = b).
  { intros l x b. split.
    - intros (ev & Hev & Ht & Hb). exists (verdict ev).
      split; [by apply list_elem_of_fmap_2 | done].
    - intros (v & Hv & Ht & Hb). apply list_elem_of_fmap in Hv as (ev & -> & Hev).
      by exists ev. }
  assert (Hnames : ∀ x,
    (x ∈ namesOfContributors (run evs) ↔ x ∈ namesOfContributors (run evs'))
    ∧ (x ∈ namesOfRecentContributors (run evs)
       ↔ x ∈ namesOfRecentContributors (run evs'))).
  { intros x. destruct (run_names evs x) as [-> ->].
    destruct (run_names evs' x) as [-> ->]. rewrite !Hverdict.
    split; split; intros (v & Hv & H); exists v; (split; [|done]).
    - by rewrite <- Hperm.
    - by rewrite Hperm.
    - by rewrite <- Hperm.
    - by rewrite Hperm. }
  unfold established, recent. simpl.
  split; apply set_eq; intros x; rewrite !elem_of_list_to_set;
    destruct (reconcile_names (run evs) x (proj2 (run_NoDup evs))) as [Hk Hr];
    destruct (reconcile_names (run evs') x (proj2 (run_NoDup evs'))) as [Hk' Hr'];
    destruct (Hnames x) as [Hxk Hxr]; tauto.
Qed.

Lemma contributor_sets_order_independent_witness :
  established (computeMetrics [] (run threeDays))
    = established (computeMetrics [] (run threeDaysBackwards))
  ∧ recent (computeMetrics [] (run threeDays))
    = recent (computeMetrics [] (run threeDaysBackwards)).
Proof.
  apply (contributor_sets_order_independent threeDays threeDaysBackwards []).
  replace (verdict <$> threeDaysBackwards) with (reverse (verdict <$> threeDays))
    by (vm_compute; reflexivity).
  symmetry. apply reverse_Permutation.
Defined.
